(** * kgforge: path-driven reshaping of resources and the table codec

    A shallow embedding of [kgforge/core/reshaping.py] ([Reshaper] and
    [collect_values]) together with a model of the dataframe conversions
    that [KnowledgeGraphForge.as_dataframe] / [from_dataframe] delegate to.

    Python objects are represented by the inductive [value]; a [Resource]
    is identified with its instance dictionary ([__dict__]), an
    insertion-ordered association list with unique keys.  Exceptions are
    values of [exn] threaded through the [result] monad. *)

From Stdlib Require Import String Ascii List ZArith Lia Bool Arith PeanoNat.
From Stdlib Require Import DecimalString Wf_nat.
Import ListNotations.
Open Scope string_scope.
Open Scope list_scope.

Set Warnings "-register-all".

(* ================================================================= *)
(** ** Exceptions and the result monad *)

(** The Python exceptions that the modelled code can raise.
    [Raised cls msg] is an instance [cls(msg)] of a class chosen by a
    caller (the [exception] argument of [collect_values]).
    [RecursionError] is only produced by the fuel-indexed helper
    [_reshape_fuel] when it is started with too little fuel; [_reshape]
    never returns it (lemma [_reshape_no_RecursionError]). *)
Inductive exn : Type :=
| AttributeError (name : string)
| KeyError (name : string)
| IndexError
| ValueError (msg : string)
| TypeError (msg : string)
| NotModelled (what : string)
| RecursionError
| Raised (cls : string) (msg : string).

Inductive result (A : Type) : Type :=
| Ok (a : A)
| Err (e : exn).

Arguments Ok {A} a.
Arguments Err {A} e.

Definition bind {A B : Type} (m : result A) (k : A -> result B) : result B :=
  match m with
  | Ok a => k a
  | Err e => Err e
  end.

Notation "x <- m ;; k" := (bind m (fun x => k))
  (at level 61, m at next level, right associativity).

(** A list comprehension whose body may raise: elements are evaluated left
    to right and the first exception aborts the comprehension. *)
Fixpoint mapM {A B : Type} (f : A -> result B) (l : list A) : result (list B) :=
  match l with
  | [] => Ok []
  | a :: l' => b <- f a ;; bs <- mapM f l' ;; Ok (b :: bs)
  end.

(** A [for] loop updating an accumulator, aborted by the first exception. *)
Fixpoint foldM {A B : Type} (f : B -> A -> result B) (l : list A) (b : B) : result B :=
  match l with
  | [] => Ok b
  | a :: l' => b' <- f b a ;; foldM f l' b'
  end.

Definition is_AttributeError (e : exn) : bool :=
  match e with
  | AttributeError _ => true
  | _ => false
  end.

(* ================================================================= *)
(** ** Python values and resources *)

Inductive value : Type :=
| VNone
| VBool (b : bool)
| VInt (z : Z)
| VStr (s : string)
| VList (xs : list value)
| VRes (attrs : list (string * value)).

(** The instance dictionary of a [Resource]. *)
Definition Resource : Type := list (string * value).

Definition is_scalar (v : value) : bool :=
  match v with
  | VList _ | VRes _ => false
  | _ => true
  end.

Fixpoint lookup {A : Type} (k : string) (d : list (string * A)) : option A :=
  match d with
  | [] => None
  | (k', v) :: d' => if String.eqb k' k then Some v else lookup k d'
  end.

(** [d[k] = v] on an insertion-ordered dictionary: an existing key keeps
    its position, a new key goes last. *)
Fixpoint dict_set {A : Type} (d : list (string * A)) (k : string) (v : A)
  : list (string * A) :=
  match d with
  | [] => [(k, v)]
  | (k', v') :: d' =>
      if String.eqb k' k then (k', v) :: d' else (k', v') :: dict_set d' k v
  end.

(** [getattr(obj, name)]: instance attributes of resources only; the
    built-in attributes of [str], [int], [list] and of the [Resource]
    class itself are outside the model. *)
Definition getattr (obj : value) (name : string) : result value :=
  match obj with
  | VRes attrs =>
      match lookup name attrs with
      | Some v => Ok v
      | None => Err (AttributeError name)
      end
  | _ => Err (AttributeError name)
  end.

Definition setattr (obj : Resource) (name : string) (v : value) : Resource :=
  dict_set obj name v.

Definition has_field (obj : value) (name : string) : bool :=
  match getattr obj name with
  | Ok _ => true
  | Err _ => false
  end.

(** Modelled from the spec: the class constant [Resource._RESERVED] is not
    part of the sources; these are the four reserved metadata attributes
    named by the policy comments of [Reshaper.reshape]. *)
Definition _RESERVED : list string :=
  ["_last_action"; "_validated"; "_synchronized"; "_store_metadata"].

Definition reserved (k : string) : bool :=
  existsb (String.eqb k) _RESERVED.

(** Modelled from the spec: the constructor of [Resource], called with
    keyword properties, is not part of the sources.  The new instance
    dictionary holds the given properties and the four metadata attributes in their default state:
    no last action, not validated, not synchronized, no store metadata. *)
Definition Resource_new (properties : list (string * value)) : Resource :=
  setattr
    (setattr
       (setattr
          (setattr properties "_last_action" VNone)
          "_validated" (VBool false))
       "_synchronized" (VBool false))
    "_store_metadata" VNone.

(** The metadata of a resource is in its default, empty state. *)
Definition default_metadata (r : Resource) : Prop :=
  lookup "_last_action" r = Some VNone /\
  lookup "_validated" r = Some (VBool false) /\
  lookup "_synchronized" r = Some (VBool false) /\
  lookup "_store_metadata" r = Some VNone.

(* ================================================================= *)
(** ** [str.format] with one keyword argument [x] *)

(** [s.split(c)] for a one-character separator: head segment and the
    remaining segments. *)
Fixpoint split_char (c : ascii) (s : string) : string * list string :=
  match s with
  | EmptyString => (EmptyString, [])
  | String a s' =>
      let (h, t) := split_char c s' in
      if Ascii.eqb a c then (EmptyString, h :: t) else (String a h, t)
  end.

Definition all_digits (s : string) : bool :=
  forallb (fun a => andb (N.leb 48 (N_of_ascii a)) (N.leb (N_of_ascii a) 57))
          (list_ascii_of_string s).

Definition contains_char (c : ascii) (s : string) : bool :=
  existsb (fun a => Ascii.eqb a c) (list_ascii_of_string s).

(** [str(v)] for the scalars; the textual form of lists and of resources
    depends on [Resource.__repr__], which is not part of the sources. *)
Definition py_str (v : value) : result string :=
  match v with
  | VNone => Ok "None"
  | VBool true => Ok "True"
  | VBool false => Ok "False"
  | VInt z => Ok (NilZero.string_of_int (Z.to_int z))
  | VStr s => Ok s
  | VList _ => Err (NotModelled "str of a list")
  | VRes _ => Err (NotModelled "str of a resource")
  end.

Fixpoint getattr_chain (obj : value) (names : list string) : result value :=
  match names with
  | [] => Ok obj
  | n :: names' =>
      if String.eqb n "" then Err (ValueError "Empty attribute in format string")
      else v <- getattr obj n ;; getattr_chain v names'
  end.

(** One replacement field [{arg.attr1.attr2...}], looked up in the keyword
    arguments [x=x].  Conversions ([!r]), format specifications ([:...])
    and indexing ([[...]]) are outside the model. *)
Definition format_field (field : string) (x : value) : result string :=
  if contains_char "!" field || contains_char ":" field || contains_char "[" field
  then Err (NotModelled "conversion, format specification or indexing")
  else
    let (arg, attrs) := split_char "." field in
    if all_digits arg then Err IndexError
    else if String.eqb arg "x" then
           v <- getattr_chain x attrs ;; py_str v
         else Err (KeyError arg).

(** The formatter scans the template from left to right.  It is reading
    literal text, or has just met an opening or a closing brace (which a
    second one turns into a literal brace), or is reading the text of a
    replacement field. *)
Inductive scan_state : Type :=
| Text
| Opened
| Closed
| Field (f : string).

(** The first exception met in scanning order is the one raised. *)
Fixpoint format_scan (template : string) (st : scan_state) (x : value)
  : result string :=
  match template with
  | EmptyString =>
      match st with
      | Text => Ok EmptyString
      | Opened => Err (ValueError "Single '{' encountered in format string")
      | Closed => Err (ValueError "Single '}' encountered in format string")
      | Field _ => Err (ValueError "expected '}' before end of string")
      end
  | String c rest =>
      match st with
      | Text =>
          if Ascii.eqb c "{" then format_scan rest Opened x
          else if Ascii.eqb c "}" then format_scan rest Closed x
          else s <- format_scan rest Text x ;; Ok (String c s)
      | Opened =>
          if Ascii.eqb c "{" then s <- format_scan rest Text x ;; Ok (String "{" s)
          else if Ascii.eqb c "}" then
            v <- format_field EmptyString x ;;
            s <- format_scan rest Text x ;; Ok (String.append v s)
          else format_scan rest (Field (String c EmptyString)) x
      | Closed =>
          if Ascii.eqb c "}" then s <- format_scan rest Text x ;; Ok (String "}" s)
          else Err (ValueError "Single '}' encountered in format string")
      | Field f =>
          if Ascii.eqb c "}" then
            v <- format_field f x ;;
            s <- format_scan rest Text x ;; Ok (String.append v s)
          else if Ascii.eqb c "{" then Err (ValueError "unexpected '{' in field name")
          else format_scan rest (Field (String.append f (String c EmptyString))) x
      end
  end.

(** [template.format(x=x)]. *)
Definition format (template : string) (x : value) : result string :=
  format_scan template Text x.

(* ================================================================= *)
(** ** Iteration order of a set of strings *)

(** [roots] is a Python [set]: iterating it visits every distinct element
    once, in an order the language does not fix.  The embedding is
    parametric in that order. *)
Record set_iteration : Type := {
  iter :> list string -> list string;
  iter_NoDup : forall l, NoDup (iter l);
  iter_In : forall l x, In x (iter l) <-> In x l
}.

Fixpoint dedup (l : list string) : list string :=
  match l with
  | [] => []
  | x :: l' => x :: filter (fun y => negb (String.eqb x y)) (dedup l')
  end.

Lemma dedup_In (l : list string) (x : string) : In x (dedup l) <-> In x l.
Proof.
  induction l as [|a l IH]; simpl; [tauto|].
  rewrite filter_In, IH.
  destruct (String.eqb_spec a x) as [Heq|Hne]; simpl; intuition congruence.
Qed.

Lemma dedup_NoDup (l : list string) : NoDup (dedup l).
Proof.
  induction l as [|a l IH]; simpl; constructor.
  - rewrite filter_In. intros [_ H]. rewrite String.eqb_refl in H. discriminate.
  - now apply NoDup_filter.
Qed.

(** Elements in order of first insertion. *)
Definition first_seen : set_iteration :=
  {| iter := dedup; iter_NoDup := dedup_NoDup; iter_In := dedup_In |}.

Lemma rev_dedup_In (l : list string) (x : string) : In x (rev (dedup l)) <-> In x l.
Proof. rewrite <- in_rev. apply dedup_In. Qed.

Lemma rev_dedup_NoDup (l : list string) : NoDup (rev (dedup l)).
Proof. apply NoDup_rev, dedup_NoDup. Qed.

(** Elements in reverse order of first insertion. *)
Definition last_seen : set_iteration :=
  {| iter := fun l => rev (dedup l);
     iter_NoDup := rev_dedup_NoDup; iter_In := rev_dedup_In |}.

(* ================================================================= *)
(** ** [Reshaper] *)

Record Reshaper : Type := { versioned_id_template : string }.

(** [x.split(".", maxsplit=1)]: the text before the first dot and, when
    there is a dot, the text after it ([len(x) > 1]). *)
Fixpoint split1 (s : string) : string * option string :=
  match s with
  | EmptyString => (EmptyString, None)
  | String c s' =>
      if Ascii.eqb c "." then (EmptyString, Some s')
      else let (h, t) := split1 s' in (String c h, t)
  end.

(** [[x[1] for x in levels if len(x) > 1 and x[0] == root]]. *)
Definition leafs_of (levels : list (string * option string)) (root : string)
  : list string :=
  flat_map (fun x =>
              match snd x with
              | Some leaf => if String.eqb (fst x) root then [leaf] else []
              | None => []
              end) levels.

(** Recursion depth that [_reshape] can reach on [keep]: every recursive
    call is on the leaf paths of one root, each strictly shorter than the
    path it comes from. *)
Definition need (keep : list string) : nat :=
  S (list_max (map (fun p => S (String.length p)) keep)).

Section Reshaping.

Variable ord : set_iteration.

(** The recursive calls of [_reshape] go through [self._reshape_many] and
    [self._reshape_one]; [rec] stands for [self._reshape]. *)
Definition _reshape_many_with (rec : value -> list string -> bool -> result Resource)
           (resources : list value) (keep : list string) (versioned : bool)
  : result (list Resource) :=
  mapM (fun x => rec x keep versioned) resources.

Definition _reshape_one_with (rec : value -> list string -> bool -> result Resource)
           (resource : value) (keep : list string) (versioned : bool)
  : result Resource :=
  rec resource keep versioned.

(** The value stored under [root] by one iteration of the loop. *)
Definition new_value_for (rec : value -> list string -> bool -> result Resource)
           (self : Reshaper) (resource : value) (leafs : list string)
           (versioned : bool) (root : string) (val : value) : result value :=
  match val with
  | VList xs =>
      rs <- _reshape_many_with rec xs leafs versioned ;;
      Ok (VList (map VRes rs))
  | VRes attributes =>
      match leafs with
      | _ :: _ =>
          r <- _reshape_one_with rec val leafs versioned ;;
          Ok (VRes r)
      | [] =>
          let properties :=
            filter (fun kv => negb (reserved (fst kv))) attributes in
          Ok (VRes (Resource_new properties))
      end
  | _ =>
      if String.eqb root "id" && versioned then
        s <- format (versioned_id_template self) resource ;;
        Ok (VStr s)
      else Ok val
  end.

(** One iteration of [for root in roots]. *)
Definition _reshape_step (rec : value -> list string -> bool -> result Resource)
           (self : Reshaper) (resource : value)
           (levels : list (string * option string)) (versioned : bool)
           (new : Resource) (root : string) : result Resource :=
  let leafs := leafs_of levels root in
  val <- getattr resource root ;;
  new_value <- new_value_for rec self resource leafs versioned root val ;;
  Ok (setattr new root new_value).

Definition _reshape_body (rec : value -> list string -> bool -> result Resource)
           (self : Reshaper) (resource : value) (keep : list string)
           (versioned : bool) : result Resource :=
  let levels := map split1 keep in
  let roots := ord (map fst levels) in
  foldM (_reshape_step rec self resource levels versioned) roots (Resource_new []).

Fixpoint _reshape_fuel (n : nat) (self : Reshaper) (resource : value)
         (keep : list string) (versioned : bool) : result Resource :=
  match n with
  | O => Err RecursionError
  | S n' => _reshape_body (_reshape_fuel n' self) self resource keep versioned
  end.

(** [Reshaper._reshape]. *)
Definition _reshape (self : Reshaper) (resource : value) (keep : list string)
           (versioned : bool) : result Resource :=
  _reshape_fuel (need keep) self resource keep versioned.

(** [Reshaper._reshape_many] and [Reshaper._reshape_one]. *)
Definition _reshape_many (self : Reshaper) (resources : list value)
           (keep : list string) (versioned : bool) : result (list Resource) :=
  _reshape_many_with (_reshape self) resources keep versioned.

Definition _reshape_one (self : Reshaper) (resource : value)
           (keep : list string) (versioned : bool) : result Resource :=
  _reshape_one_with (_reshape self) resource keep versioned.

(** Modelled from the spec: [dispatch] (kgforge.core.commons.execution) is
    not part of the sources.  A list goes to the "many" function, a
    resource to the "one" function, anything else is a type error. *)
Definition dispatch (data : value)
           (fun_many : list value -> result (list Resource))
           (fun_one : value -> result Resource) : result value :=
  match data with
  | VList xs => rs <- fun_many xs ;; Ok (VList (map VRes rs))
  | VRes _ => r <- fun_one data ;; Ok (VRes r)
  | _ => Err (TypeError "not a Resource nor a list of Resource")
  end.

(** [Reshaper.reshape], before the [catch] decorator reports the
    exception. *)
Definition reshape (self : Reshaper) (data : value) (keep : list string)
           (versioned : bool) : result value :=
  dispatch data
           (fun xs => _reshape_many self xs keep versioned)
           (fun x => _reshape_one self x keep versioned).

End Reshaping.

(** Every root named in [keep] is an attribute of [x], and so on below the
    roots, on the subtrees that the leaf paths are applied to: every
    element of a list, and a nested resource when leaf paths remain. *)
Inductive covered : value -> list string -> Prop :=
| covered_intro (x : value) (keep : list string) :
    (forall root, In root (map fst (map split1 keep)) -> has_field x root = true) ->
    (forall root xs e,
        In root (map fst (map split1 keep)) ->
        getattr x root = Ok (VList xs) -> In e xs ->
        covered e (leafs_of (map split1 keep) root)) ->
    (forall root attributes,
        In root (map fst (map split1 keep)) ->
        getattr x root = Ok (VRes attributes) ->
        leafs_of (map split1 keep) root <> [] ->
        covered (VRes attributes) (leafs_of (map split1 keep) root)) ->
    covered x keep.

(* ================================================================= *)
(** ** [collect_values] *)

(** Plain JSON-like data: the nested-map form of resources. *)
Inductive json : Type :=
| JNull
| JBool (b : bool)
| JInt (z : Z)
| JStr (s : string)
| JList (items : list json)
| JDict (items : list (string * json)).

(** Modelled from the spec: [as_json] (kgforge.core.conversions.json) is not
    part of the sources.  [as_json data] stands for
    [as_json(data, False, False)], the plain nested-map form: a resource
    becomes the dict of its properties (the reserved metadata attributes
    are not data), a list becomes a list, a scalar stays itself. *)
Fixpoint as_json (data : value) : json :=
  match data with
  | VNone => JNull
  | VBool b => JBool b
  | VInt z => JInt z
  | VStr s => JStr s
  | VList xs => JList (map as_json xs)
  | VRes attrs =>
      JDict ((fix items (d : list (string * value)) : list (string * json) :=
                match d with
                | [] => []
                | (k, v) :: d' =>
                    if reserved k then items d' else (k, as_json v) :: items d'
                end) attrs)
  end.

(** The body of [for x in things] in [_collect], for one [x]: only a dict
    is walked; under a key, a list is walked element by element, a dict is
    walked, and any other value is yielded. *)
Fixpoint _collect_one (x : json) : list json :=
  match x with
  | JDict d =>
      (fix items (d : list (string * json)) : list json :=
         match d with
         | [] => []
         | (k, v) :: d' =>
             match v with
             | JList l =>
                 (fix things (l : list json) : list json :=
                    match l with
                    | [] => []
                    | y :: l' => _collect_one y ++ things l'
                    end) l
             | JDict _ => _collect_one v
             | _ => [v]
             end ++ items d'
         end) d
  | _ => []
  end.

(** The generator [_collect], as the list of the values it yields. *)
Definition _collect (things : list json) : list json :=
  flat_map _collect_one things.

(** [try: body except AttributeError: raise handler]. *)
Definition except_AttributeError {A : Type} (body : result A) (handler : exn)
  : result A :=
  match body with
  | Ok a => Ok a
  | Err e => if is_AttributeError e then Err handler else Err e
  end.

Section Collecting.

Variable ord : set_iteration.

Definition collect_values (data : value) (follow : string)
           (exception : string -> exn) : result (list json) :=
  except_AttributeError
    (let r := {| versioned_id_template := "" |} in
     reshaped <- dispatch data
                   (fun xs => _reshape_many ord r xs [follow] false)
                   (fun x => _reshape_one ord r x [follow] false) ;;
     let jsoned := as_json reshaped in
     let prepared := match jsoned with
                     | JList l => l
                     | _ => [jsoned]
                     end in
     Ok (_collect prepared))
    (exception "path to follow is incorrect").

End Collecting.

(** The default of the [exception] argument: the class [Exception]. *)
Definition Exception : string -> exn := Raised "Exception".

(** The reshape performed by [collect_values]. *)
Definition followed (ord : set_iteration) (data : value) (follow : string)
  : result value :=
  let r := {| versioned_id_template := "" |} in
  dispatch data
           (fun xs => _reshape_many ord r xs [follow] false)
           (fun x => _reshape_one ord r x [follow] false).

(** Reference walks over the nested-map form, used to state what
    [_collect] yields. *)

(** Every scalar met by a depth-first, left-to-right walk through all
    dicts and arrays. *)
Fixpoint all_leaves (x : json) : list json :=
  match x with
  | JList l =>
      (fix things (l : list json) : list json :=
         match l with
         | [] => []
         | y :: l' => all_leaves y ++ things l'
         end) l
  | JDict d =>
      (fix items (d : list (string * json)) : list json :=
         match d with
         | [] => []
         | (k, v) :: d' => all_leaves v ++ items d'
         end) d
  | _ => [x]
  end.

Definition is_dict (x : json) : bool :=
  match x with
  | JDict _ => true
  | _ => false
  end.

(** Every array holds dicts only, at every depth. *)
Fixpoint arrays_of_dicts (x : json) : bool :=
  match x with
  | JList l =>
      (fix things (l : list json) : bool :=
         match l with
         | [] => true
         | y :: l' =>
             match y with
             | JDict _ => arrays_of_dicts y
             | _ => false
             end && things l'
         end) l
  | JDict d =>
      (fix items (d : list (string * json)) : bool :=
         match d with
         | [] => true
         | (k, v) :: d' => arrays_of_dicts v && items d'
         end) d
  | _ => true
  end.

(* ================================================================= *)
(** ** The table codec *)

Module TableCodec.

(** Modelled from the spec: [kgforge/core/conversions/dataframe.py]
    ([as_dataframe], [from_dataframe]), to which
    [KnowledgeGraphForge.as_dataframe] and [from_dataframe] delegate, is
    not part of the sources.  The data model is the one of the
    specification: a resource tree is an ordered mapping from keys to
    scalars, nested trees or arrays; a table has named columns and rows
    of cells, a cell being either the NA marker or a value.  The
    conversions are modelled without store metadata columns
    ([store_metadata=False], the default of [as_dataframe]). *)
Inductive scalar : Type :=
| SNull
| SBool (b : bool)
| SNum (z : Z)
| SStr (s : string).

Inductive tree_value : Type :=
| Scalar (s : scalar)
| Tree (fields : list (string * tree_value))
| ArrayOf (items : list tree_value).

Definition ResourceTree : Type := list (string * tree_value).

Inductive cell : Type :=
| NA
| Cell (v : tree_value).

Record Table : Type := {
  columns : list string;
  rows : list (list cell)
}.

(** The failures of [fromTable]. *)
Inductive outcome (A : Type) : Type :=
| Done (a : A)
| ShapeConflict (column : list string).

Arguments Done {A} a.
Arguments ShapeConflict {A} column.

Definition and_then {A B : Type} (m : outcome A) (k : A -> outcome B) : outcome B :=
  match m with
  | Done a => k a
  | ShapeConflict c => ShapeConflict c
  end.

Fixpoint for_each {A B : Type} (f : B -> A -> outcome B) (l : list A) (b : B)
  : outcome B :=
  match l with
  | [] => Done b
  | a :: l' => and_then (f b a) (for_each f l')
  end.

Fixpoint traverse {A B : Type} (f : A -> outcome B) (l : list A) : outcome (list B) :=
  match l with
  | [] => Done []
  | a :: l' => and_then (f a) (fun b => and_then (traverse f l') (fun bs => Done (b :: bs)))
  end.

Definition scalar_eqb (a b : scalar) : bool :=
  match a, b with
  | SNull, SNull => true
  | SBool x, SBool y => Bool.eqb x y
  | SNum x, SNum y => Z.eqb x y
  | SStr x, SStr y => String.eqb x y
  | _, _ => false
  end.

(** The language-level absence sentinel. *)
Definition is_null (v : tree_value) : bool :=
  match v with
  | Scalar SNull => true
  | _ => false
  end.

(** A scalar equal to one of the configured NA sentinels. *)
Definition is_sentinel (naValues : list scalar) (v : tree_value) : bool :=
  match v with
  | Scalar s => existsb (scalar_eqb s) naValues
  | _ => false
  end.

(** A value that is written as the NA marker. *)
Definition is_na (naValues : list scalar) (v : tree_value) : bool :=
  is_null v || is_sentinel naValues v.

(** *** Column names *)

(** The segments of a path joined by the delimiter. *)
Fixpoint join (delim : string) (path : list string) : string :=
  match path with
  | [] => EmptyString
  | [k] => k
  | k :: rest => String.append k (String.append delim (join delim rest))
  end.

Fixpoint is_prefix (p s : string) : bool :=
  match p, s with
  | EmptyString, _ => true
  | String a p', String b s' => Ascii.eqb a b && is_prefix p' s'
  | String _ _, EmptyString => false
  end.

Fixpoint string_rev (s acc : string) : string :=
  match s with
  | EmptyString => acc
  | String c s' => string_rev s' (String c acc)
  end.

(** A left-to-right scan for the occurrences of the delimiter: [skip]
    counts the characters of a matched delimiter still to pass over,
    [cur] holds the current segment, last character first. *)
Fixpoint split_scan (delim s : string) (skip : nat) (cur : string) : list string :=
  match s with
  | EmptyString => [string_rev cur EmptyString]
  | String c s' =>
      match skip with
      | S k => split_scan delim s' k cur
      | O =>
          if is_prefix delim s then
            string_rev cur EmptyString
              :: split_scan delim s' (String.length delim - 1) EmptyString
          else split_scan delim s' 0 (String c cur)
      end
  end.

(** A column name split into its path segments. *)
Definition split (delim name : string) : list string :=
  split_scan delim name 0 EmptyString.

(** The header text of a key: the reserved keys carry a sigil when
    [expanded]. *)
Definition header_of (expanded : bool) (k : string) : string :=
  if expanded && (String.eqb k "id" || String.eqb k "type")
  then String.append "@" k else k.

(** *** Trees to table *)

(** The columns of the value stored under the column name [name]: a
    nested tree is flattened under [name], to any depth; anything else is
    one column. *)
Fixpoint flatten_value (delim : string) (expanded : bool) (name : string)
         (v : tree_value) : list (string * tree_value) :=
  match v with
  | Tree fields =>
      (fix go (fs : list (string * tree_value)) : list (string * tree_value) :=
         match fs with
         | [] => []
         | (k, v') :: fs' =>
             flatten_value delim expanded
               (String.append name (String.append delim (header_of expanded k))) v'
             ++ go fs'
         end) fields
  | _ => [(name, v)]
  end.

(** One row, as the columns of a tree in depth-first, left-to-right
    order. *)
Definition flatten (delim : string) (expanded : bool) (t : ResourceTree)
  : list (string * tree_value) :=
  flat_map (fun kv => flatten_value delim expanded (header_of expanded (fst kv)) (snd kv)) t.

Definition cell_of (naValues : list scalar) (v : option tree_value) : cell :=
  match v with
  | Some v => if is_na naValues v then NA else Cell v
  | None => NA
  end.

Definition toTable (trees : list ResourceTree) (naValues : list scalar)
           (nestingDelimiter : string) (expanded : bool) : Table :=
  let flattened := map (flatten nestingDelimiter expanded) trees in
  let header := dedup (flat_map (map fst) flattened) in
  {| columns := header;
     rows := map (fun row => map (fun c => cell_of naValues (lookup c row)) header)
                 flattened |}.

(** *** Table to trees *)

(** The value [v] stored at [path] in a tree under construction: the
    trees of the intermediate segments are created on first reference and
    reused afterwards; a path that is both a leaf and a nested tree is a
    shape conflict. *)
Fixpoint insert (column path : list string) (v : tree_value) (t : ResourceTree)
  : outcome ResourceTree :=
  match path with
  | [] => Done t
  | k :: rest =>
      match rest with
      | [] =>
          match lookup k t with
          | Some (Tree _) => ShapeConflict column
          | _ => Done (dict_set t k v)
          end
      | _ :: _ =>
          match lookup k t with
          | None =>
              and_then (insert column rest v [])
                       (fun sub => Done (dict_set t k (Tree sub)))
          | Some (Tree sub0) =>
              and_then (insert column rest v sub0)
                       (fun sub => Done (dict_set t k (Tree sub)))
          | Some _ => ShapeConflict column
          end
      end
  end.

Definition row_step (naValues : list scalar) (delim : string)
           (t : ResourceTree) (entry : string * cell) : outcome ResourceTree :=
  match snd entry with
  | NA => Done t
  | Cell v =>
      if is_sentinel naValues v then Done t
      else let path := split delim (fst entry) in insert path path v t
  end.

Definition fromRow (naValues : list scalar) (delim : string)
           (header : list string) (row : list cell) : outcome ResourceTree :=
  for_each (row_step naValues delim) (combine header row) [].

Definition fromTable (table : Table) (naValues : list scalar)
           (nestingDelimiter : string) : outcome (list ResourceTree) :=
  traverse (fromRow naValues nestingDelimiter (columns table)) (rows table).

(** *** Semantic equality and normalization *)

(** Trees are equal as mappings: the order of the fields is not
    significant; arrays are cell values and are compared as they are. *)
Inductive equiv : tree_value -> tree_value -> Prop :=
| equiv_scalar (s : scalar) : equiv (Scalar s) (Scalar s)
| equiv_array (items : list tree_value) : equiv (ArrayOf items) (ArrayOf items)
| equiv_tree (f g : list (string * tree_value)) :
    (forall k, lookup k f = None <-> lookup k g = None) ->
    (forall k v w, lookup k f = Some v -> lookup k g = Some w -> equiv v w) ->
    equiv (Tree f) (Tree g).

Definition tree_equiv (t u : ResourceTree) : Prop := equiv (Tree t) (Tree u).

(** Field-absence normalization: a field holding the null scalar is
    absent. *)
Fixpoint normalize_value (v : tree_value) : tree_value :=
  match v with
  | Tree fields =>
      Tree ((fix go (fs : list (string * tree_value)) : list (string * tree_value) :=
               match fs with
               | [] => []
               | (k, v') :: fs' =>
                   if is_null v' then go fs' else (k, normalize_value v') :: go fs'
               end) fields)
  | _ => v
  end.

Definition normalize (t : ResourceTree) : ResourceTree :=
  match normalize_value (Tree t) with
  | Tree fields => fields
  | _ => []
  end.

(** *** Well-formedness of a batch *)

(** The leaves of a value (scalars and arrays), each with its path. *)
Fixpoint leaves_value (v : tree_value) : list (list string * tree_value) :=
  match v with
  | Tree fields =>
      (fix go (fs : list (string * tree_value)) : list (list string * tree_value) :=
         match fs with
         | [] => []
         | (k, v') :: fs' =>
             map (fun pv => (k :: fst pv, snd pv)) (leaves_value v') ++ go fs'
         end) fields
  | _ => [([], v)]
  end.

Definition leaves (t : ResourceTree) : list (list string * tree_value) :=
  leaves_value (Tree t).

Fixpoint nodupb (l : list string) : bool :=
  match l with
  | [] => true
  | x :: l' => negb (existsb (String.eqb x) l') && nodupb l'
  end.

(** Keys are unique within every tree. *)
Fixpoint unique_keys_value (v : tree_value) : bool :=
  match v with
  | Tree fields =>
      nodupb (map fst fields)
      && (fix go (fs : list (string * tree_value)) : bool :=
            match fs with
            | [] => true
            | (k, v') :: fs' => unique_keys_value v' && go fs'
            end) fields
  | _ => true
  end.

Definition unique_keys (t : ResourceTree) : bool := unique_keys_value (Tree t).

(** No value of the tree is one of the configured NA sentinels. *)
Definition no_sentinel (naValues : list scalar) (t : ResourceTree) : bool :=
  forallb (fun pv => negb (is_sentinel naValues (snd pv))) (leaves t).

Definition paths_eqb (p q : list string) : bool :=
  if list_eq_dec string_dec p q then true else false.

(** Every column name of the tree splits back into the path it was
    built from. *)
Definition splits_back (delim : string) (t : ResourceTree) : bool :=
  forallb (fun pv => paths_eqb (split delim (join delim (fst pv))) (fst pv)) (leaves t).

(** Every nested tree keeps at least one field after normalization. *)
Fixpoint no_empty_tree_value (v : tree_value) : bool :=
  match v with
  | Tree fields =>
      (fix go (fs : list (string * tree_value)) : bool :=
         match fs with
         | [] => true
         | (k, v') :: fs' =>
             match v' with
             | Tree _ =>
                 match normalize_value v' with
                 | Tree [] => false
                 | _ => no_empty_tree_value v'
                 end
             | _ => true
             end && go fs'
         end) fields
  | _ => true
  end.

Definition no_empty_tree (t : ResourceTree) : bool := no_empty_tree_value (Tree t).

(** What the round trip asks of a tree of the batch: unique keys, no
    value equal to a configured sentinel, column names that split back
    into their paths, and no nested tree left without a field by the
    normalization. *)
Definition well_formed (naValues : list scalar) (delim : string) (t : ResourceTree)
  : bool :=
  unique_keys t && no_sentinel naValues t && splits_back delim t && no_empty_tree t.

End TableCodec.

(* ================================================================= *)
(** ** Concrete inputs *)

(** A resource and keep lists used as concrete inputs below. *)
Definition example_nested : value :=
  VRes (Resource_new [("name", VStr "n"); ("tags", VList [VStr "a"; VStr "b"])]).

Definition example_attributes : Resource :=
  Resource_new [("id", VStr "123"); ("type", VStr "Type");
                ("p", example_nested);
                ("items", VList [VRes (Resource_new [("q", VInt 1)]);
                                 VRes (Resource_new [("q", VInt 2)])])].

Definition example_resource : value := VRes example_attributes.

Definition example_reshaper : Reshaper :=
  {| versioned_id_template := "{x.id}-v1" |}.

(** A registered resource: its metadata says that it is synchronized. *)
Definition example_synchronized : value :=
  VRes (setattr (Resource_new [("id", VStr "123")]) "_synchronized" (VBool true)).

(** The example resource reshaped to its id, the name below [p] and the
    [q] of every item. *)
Definition example_reshaped : value :=
  Eval vm_compute in
    match reshape first_seen example_reshaper example_resource
                  ["id"; "p.name"; "items.q"] false with
    | Ok v => v
    | Err _ => VNone
    end.

Module TableExamples.
Import TableCodec.

(** The two flat trees of the specification and their table. *)
Definition example_trees : list ResourceTree :=
  [ [("id", Scalar (SStr "123")); ("type", Scalar (SStr "Type"));
     ("p1", Scalar (SStr "v1a")); ("p2", Scalar (SStr "v2a"))];
    [("id", Scalar (SStr "345")); ("type", Scalar (SStr "Type"));
     ("p1", Scalar (SStr "v1b")); ("p2", Scalar (SStr "v2b"))] ].

Definition example_table : Table :=
  {| columns := ["id"; "type"; "p1"; "p2"];
     rows := [ [Cell (Scalar (SStr "123")); Cell (Scalar (SStr "Type"));
                Cell (Scalar (SStr "v1a")); Cell (Scalar (SStr "v2a"))];
               [Cell (Scalar (SStr "345")); Cell (Scalar (SStr "Type"));
                Cell (Scalar (SStr "v1b")); Cell (Scalar (SStr "v2b"))] ] |}.

(** A batch with nested trees, a null field, an array and fields met in
    different orders. *)
Definition example_batch : list ResourceTree :=
  [ [("id", Scalar (SStr "678"));
     ("p4", Tree [("id", Scalar (SStr "123")); ("p1", Scalar SNull);
                  ("p2", Tree [("p5", Scalar (SStr "v5e"));
                               ("p6", ArrayOf [Scalar (SNum 1); Scalar (SNum 2)])])])];
    [("p4", Tree [("p2", Tree [("p6", Scalar (SBool true))]);
                  ("id", Scalar (SStr "345"))]);
     ("p3", Scalar SNull);
     ("id", Scalar (SStr "912"))] ].

End TableExamples.

(* ================================================================= *)
(** * Properties of the reshaper *)

(** ** The result monad *)

Lemma bind_Ok {A B : Type} (m : result A) (k : A -> result B) (b : B) :
  bind m k = Ok b <-> exists a, m = Ok a /\ k a = Ok b.
Proof.
  destruct m as [a|e]; simpl; split.
  - intros H. now exists a.
  - now intros [a' [[= <-] H]].
  - discriminate.
  - now intros [a' [[=] _]].
Qed.

Lemma bind_Err {A B : Type} (m : result A) (k : A -> result B) (e : exn) :
  bind m k = Err e <-> m = Err e \/ exists a, m = Ok a /\ k a = Err e.
Proof.
  destruct m as [a|e']; simpl; split.
  - intros H. right. now exists a.
  - intros [[=]|[a' [[= <-] H]]]. exact H.
  - intros [= <-]. now left.
  - intros [[= <-]|[a' [[=] _]]]. reflexivity.
Qed.

Lemma mapM_ext_in {A B : Type} (f g : A -> result B) (l : list A) :
  (forall a, In a l -> f a = g a) -> mapM f l = mapM g l.
Proof.
  induction l as [|a l IH]; simpl; intros H; [reflexivity|].
  rewrite (H a (or_introl eq_refl)), IH; auto.
Qed.

Lemma mapM_Ok {A B : Type} (f : A -> result B) (l : list A) (bs : list B) :
  mapM f l = Ok bs <-> Forall2 (fun a b => f a = Ok b) l bs.
Proof.
  revert bs. induction l as [|a l IH]; simpl; intros bs.
  - split.
    + intros [= <-]. constructor.
    + intros H. inversion H. reflexivity.
  - rewrite bind_Ok. split.
    + intros [b [Hb H]]. apply bind_Ok in H as [bs' [Hbs [= <-]]].
      constructor; [exact Hb | now apply IH].
    + intros H. inversion H as [|? b ? bs' Hb Hbs]; subst.
      exists b. split; [exact Hb|]. apply bind_Ok. exists bs'. split; [now apply IH | reflexivity].
Qed.

Lemma mapM_Err {A B : Type} (f : A -> result B) (l : list A) (e : exn) :
  mapM f l = Err e -> exists a, In a l /\ f a = Err e.
Proof.
  induction l as [|a l IH]; simpl; [discriminate|].
  intros H. apply bind_Err in H as [H|[b [Hb H]]].
  - exists a. auto.
  - apply bind_Err in H as [H|[bs [_ H]]]; [|discriminate].
    destruct (IH H) as [a' [Hin Ha']]. exists a'. auto.
Qed.

Lemma mapM_fails {A B : Type} (f : A -> result B) (l : list A) (a : A) (e : exn) :
  In a l -> f a = Err e -> exists e', mapM f l = Err e'.
Proof.
  induction l as [|a' l IH]; simpl; [tauto|].
  intros [->|Hin] Ha.
  - rewrite Ha. simpl. eauto.
  - destruct (f a') as [b|e0]; simpl; [|eauto].
    destruct (IH Hin Ha) as [e' ->]. simpl. eauto.
Qed.

Lemma mapM_first_Err {A B : Type} (f : A -> result B) (pre post : list A) (a : A)
      (e : exn) :
  (forall a', In a' pre -> exists b, f a' = Ok b) -> f a = Err e ->
  mapM f (pre ++ a :: post) = Err e.
Proof.
  induction pre as [|a0 pre IH]; simpl; intros Hpre Ha.
  - now rewrite Ha.
  - destruct (Hpre a0 (or_introl eq_refl)) as [b ->]. simpl.
    rewrite IH; auto.
Qed.

Lemma mapM_total {A B : Type} (f : A -> result B) (l : list A) :
  (forall a, In a l -> exists b, f a = Ok b) -> exists bs, mapM f l = Ok bs.
Proof.
  induction l as [|a l IH]; simpl; intros H; [eauto|].
  destruct (H a (or_introl eq_refl)) as [b ->]. simpl.
  destruct IH as [bs ->]; [auto|]. simpl. eauto.
Qed.

Lemma foldM_ext_in {A B : Type} (f g : B -> A -> result B) (l : list A) (b : B) :
  (forall a, In a l -> forall b', f b' a = g b' a) -> foldM f l b = foldM g l b.
Proof.
  revert b. induction l as [|a l IH]; simpl; intros b H; [reflexivity|].
  rewrite (H a (or_introl eq_refl)). destruct (g b a); simpl; auto.
Qed.

(** ** Dictionaries *)

Lemma lookup_dict_set_eq {A : Type} (d : list (string * A)) (k : string) (v : A) :
  lookup k (dict_set d k v) = Some v.
Proof.
  induction d as [|[k' v'] d IH]; simpl.
  - now rewrite String.eqb_refl.
  - destruct (String.eqb k' k) eqn:E; simpl; rewrite E; auto.
Qed.

Lemma lookup_dict_set_neq {A : Type} (d : list (string * A)) (k k' : string) (v : A) :
  k <> k' -> lookup k' (dict_set d k v) = lookup k' d.
Proof.
  intros Hne. induction d as [|[k0 v0] d IH]; simpl.
  - destruct (String.eqb_spec k k'); [contradiction | reflexivity].
  - destruct (String.eqb_spec k0 k) as [->|Hk]; simpl.
    + destruct (String.eqb_spec k k'); [contradiction | reflexivity].
    + now rewrite IH.
Qed.

Lemma lookup_None {A : Type} (d : list (string * A)) (k : string) :
  lookup k d = None <-> ~ In k (map fst d).
Proof.
  induction d as [|[k' v'] d IH]; simpl; [tauto|].
  destruct (String.eqb_spec k' k) as [->|Hk].
  - split; [discriminate | intros H; exfalso; auto].
  - rewrite IH. tauto.
Qed.

Lemma lookup_In {A : Type} (d : list (string * A)) (k : string) (v : A) :
  lookup k d = Some v -> In (k, v) d.
Proof.
  induction d as [|[k' v'] d IH]; simpl; [discriminate|].
  destruct (String.eqb_spec k' k) as [->|Hk].
  - intros [= ->]. now left.
  - auto.
Qed.

Lemma dict_set_absent {A : Type} (d : list (string * A)) (k : string) (v : A) :
  lookup k d = None -> dict_set d k v = d ++ [(k, v)].
Proof.
  induction d as [|[k' v'] d IH]; simpl; [reflexivity|].
  destruct (String.eqb k' k); [discriminate|].
  intros H. now rewrite IH.
Qed.

Lemma dict_set_keys {A : Type} (d : list (string * A)) (k : string) (v : A) :
  map fst (dict_set d k v) =
  match lookup k d with
  | Some _ => map fst d
  | None => map fst d ++ [k]
  end.
Proof.
  induction d as [|[k' v'] d IH]; simpl; [reflexivity|].
  destruct (String.eqb k' k) eqn:E; simpl; [reflexivity|].
  rewrite IH. now destruct (lookup k d).
Qed.

Lemma lookup_filter_keys {A : Type} (P : string -> bool) (d : list (string * A)) (k : string) :
  P k = true -> lookup k (filter (fun kv => P (fst kv)) d) = lookup k d.
Proof.
  intros HP. induction d as [|[k' v'] d IH]; simpl; [reflexivity|].
  destruct (P k') eqn:E; simpl.
  - now rewrite IH.
  - destruct (String.eqb_spec k' k) as [->|Hk]; [congruence | exact IH].
Qed.

Lemma lookup_filter_out {A : Type} (P : string -> bool) (d : list (string * A)) (k : string) :
  P k = false -> lookup k (filter (fun kv => P (fst kv)) d) = None.
Proof.
  intros HP. induction d as [|[k' v'] d IH]; simpl; [reflexivity|].
  destruct (P k') eqn:E; simpl; [|exact IH].
  destruct (String.eqb_spec k' k) as [->|Hk]; [congruence | exact IH].
Qed.

(** ** Construction of resources *)

Lemma reserved_spec (k : string) :
  reserved k = true <->
  k = "_last_action" \/ k = "_validated" \/ k = "_synchronized" \/ k = "_store_metadata".
Proof.
  unfold reserved, _RESERVED. simpl.
  repeat match goal with
         | |- context [String.eqb k ?s] => destruct (String.eqb_spec k s)
         end; simpl; intuition congruence.
Qed.

Lemma Resource_new_default (properties : list (string * value)) :
  default_metadata (Resource_new properties).
Proof.
  unfold default_metadata, Resource_new, setattr.
  repeat split;
    repeat first [ apply lookup_dict_set_eq
                 | rewrite lookup_dict_set_neq by discriminate ].
Qed.

Lemma Resource_new_lookup (properties : list (string * value)) (k : string) :
  reserved k = false -> lookup k (Resource_new properties) = lookup k properties.
Proof.
  intros Hk. unfold Resource_new, setattr.
  assert (H : forall s, reserved s = true -> s <> k).
  { intros s Hs ->. congruence. }
  rewrite !lookup_dict_set_neq; auto; apply H, reserved_spec; auto.
Qed.

Definition data_only (properties : list (string * value)) : Prop :=
  forall k, reserved k = true -> lookup k properties = None.

Lemma lookup_app {A : Type} (d d' : list (string * A)) (k : string) :
  lookup k (d ++ d') =
  match lookup k d with
  | Some v => Some v
  | None => lookup k d'
  end.
Proof.
  induction d as [|[k' v'] d IH]; simpl; [reflexivity|].
  now destruct (String.eqb k' k).
Qed.

Lemma Resource_new_app (properties : list (string * value)) :
  data_only properties ->
  Resource_new properties =
  properties ++ [("_last_action", VNone); ("_validated", VBool false);
                 ("_synchronized", VBool false); ("_store_metadata", VNone)].
Proof.
  intros H. unfold Resource_new, setattr.
  rewrite (dict_set_absent properties "_last_action") by (apply H; reflexivity).
  rewrite (dict_set_absent (properties ++ _) "_validated")
    by (rewrite lookup_app, (H "_validated" eq_refl); reflexivity).
  rewrite (dict_set_absent ((properties ++ _) ++ _) "_synchronized")
    by (rewrite !lookup_app, (H "_synchronized" eq_refl); reflexivity).
  rewrite (dict_set_absent (((properties ++ _) ++ _) ++ _) "_store_metadata")
    by (rewrite !lookup_app, (H "_store_metadata" eq_refl); reflexivity).
  now rewrite <- !app_assoc.
Qed.

Lemma filter_data_only (attributes : list (string * value)) :
  data_only (filter (fun kv => negb (reserved (fst kv))) attributes).
Proof.
  intros k Hk.
  apply (lookup_filter_out (fun s => negb (reserved s))). now rewrite Hk.
Qed.

Lemma filter_data_id (properties : list (string * value)) :
  (forall kv, In kv properties -> reserved (fst kv) = false) ->
  filter (fun kv => negb (reserved (fst kv))) properties = properties.
Proof.
  induction properties as [|kv d IH]; simpl; intros H; [reflexivity|].
  rewrite (H kv (or_introl eq_refl)). simpl. f_equal. auto.
Qed.

(** Copying the properties of a copy: nothing changes. *)
Lemma shallow_copy_idem (attributes : list (string * value)) :
  let properties := filter (fun kv => negb (reserved (fst kv))) attributes in
  filter (fun kv => negb (reserved (fst kv))) (Resource_new properties) = properties.
Proof.
  intros properties.
  rewrite Resource_new_app by apply filter_data_only.
  rewrite filter_app. simpl. rewrite app_nil_r.
  apply filter_data_id. intros kv Hin.
  apply filter_In in Hin as [_ Hin]. now apply negb_true_iff.
Qed.

(** ** Splitting paths *)

Lemma split1_length (p : string) :
  String.length p =
  match snd (split1 p) with
  | Some leaf => S (String.length (fst (split1 p)) + String.length leaf)
  | None => String.length (fst (split1 p))
  end.
Proof.
  induction p as [|c p IH]; simpl; [reflexivity|].
  destruct (Ascii.eqb c "."); simpl; [reflexivity|].
  destruct (split1 p) as [h [leaf|]]; simpl in *; lia.
Qed.

Lemma leafs_of_In (keep : list string) (root leaf : string) :
  In leaf (leafs_of (map split1 keep) root) <->
  exists p, In p keep /\ split1 p = (root, Some leaf).
Proof.
  unfold leafs_of. rewrite in_flat_map. split.
  - intros [[r o] [Hin H]]. apply in_map_iff in Hin as [p [Hp Hin]].
    exists p. split; [exact Hin|]. simpl in H. destruct o as [l|]; [|contradiction].
    destruct (String.eqb_spec r root) as [->|]; [|contradiction].
    destruct H as [->|[]]. exact Hp.
  - intros [p [Hin Hp]]. exists (root, Some leaf). split.
    + apply in_map_iff. eauto.
    + simpl. rewrite String.eqb_refl. now left.
Qed.

Lemma list_max_In (l : list nat) (n : nat) : In n l -> n <= list_max l.
Proof.
  intros Hin. pose proof (proj1 (list_max_le l (list_max l)) (le_n _)) as H.
  rewrite Forall_forall in H. auto.
Qed.

Lemma need_leafs (keep : list string) (root : string) :
  In root (map fst (map split1 keep)) ->
  need (leafs_of (map split1 keep) root) < need keep.
Proof.
  intros Hroot. unfold need. apply -> Nat.succ_lt_mono.
  apply in_map_iff in Hroot as [[r o] [_ Hroot]].
  apply in_map_iff in Hroot as [p0 [_ Hp0]].
  assert (H0 : 1 <= list_max (map (fun p => S (String.length p)) keep)).
  { etransitivity; [|apply list_max_In, in_map_iff; exists p0; eauto]. lia. }
  apply Nat.lt_succ_r.
  assert (H : list_max (map (fun p => S (String.length p))
                            (leafs_of (map split1 keep) root))
              <= pred (list_max (map (fun p => S (String.length p)) keep))); [|lia].
  apply list_max_le, Forall_forall. intros n Hn.
  apply in_map_iff in Hn as [leaf [<- Hleaf]].
  apply leafs_of_In in Hleaf as [p [Hp Hsplit]].
  pose proof (split1_length p) as Hlen. rewrite Hsplit in Hlen. simpl in Hlen.
  assert (S (String.length p) <= list_max (map (fun p => S (String.length p)) keep)).
  { apply list_max_In, in_map_iff. eauto. }
  lia.
Qed.

(** Induction on the paths kept: the paths kept below a root are
    shorter. *)
Lemma keep_ind (P : list string -> Prop) :
  (forall keep,
      (forall root, In root (map fst (map split1 keep)) ->
                    P (leafs_of (map split1 keep) root)) ->
      P keep) ->
  forall keep, P keep.
Proof.
  intros H keep.
  induction keep as [keep IH] using (induction_ltof1 _ need).
  apply H. intros root Hroot. apply IH. now apply need_leafs.
Qed.

(** ** The recursion of [_reshape] *)

(** The value computed for one root, before it is stored. *)
Definition root_value (rec : value -> list string -> bool -> result Resource)
           (self : Reshaper) (resource : value)
           (levels : list (string * option string)) (versioned : bool)
           (root : string) : result value :=
  val <- getattr resource root ;;
  new_value_for rec self resource (leafs_of levels root) versioned root val.

(** The attributes [roots] set one after the other to [vals]. *)
Definition assign (new : Resource) (roots : list string) (vals : list value)
  : Resource :=
  fold_left (fun d rv => setattr d (fst rv) (snd rv)) (combine roots vals) new.

Lemma _reshape_step_root_value rec self resource levels versioned new root :
  _reshape_step rec self resource levels versioned new root =
  (nv <- root_value rec self resource levels versioned root ;;
   Ok (setattr new root nv)).
Proof.
  unfold _reshape_step, root_value.
  destruct (getattr resource root); simpl; reflexivity.
Qed.

Lemma foldM_steps rec self resource levels versioned roots new :
  foldM (_reshape_step rec self resource levels versioned) roots new =
  (vals <- mapM (root_value rec self resource levels versioned) roots ;;
   Ok (assign new roots vals)).
Proof.
  revert new. induction roots as [|root roots IH]; simpl; intros new; [reflexivity|].
  rewrite _reshape_step_root_value.
  destruct (root_value rec self resource levels versioned root) as [nv|e]; simpl;
    [|reflexivity].
  rewrite IH.
  destruct (mapM (root_value rec self resource levels versioned) roots); reflexivity.
Qed.

Lemma assign_lookup_other new roots vals k :
  ~ In k roots -> lookup k (assign new roots vals) = lookup k new.
Proof.
  unfold assign. revert new vals.
  induction roots as [|root roots IH]; simpl; intros new vals Hk; [reflexivity|].
  destruct vals as [|v vals]; simpl; [reflexivity|].
  rewrite IH by tauto. unfold setattr. apply lookup_dict_set_neq. tauto.
Qed.

Lemma assign_lookup new roots vals root v :
  NoDup roots -> In (root, v) (combine roots vals) ->
  lookup root (assign new roots vals) = Some v.
Proof.
  unfold assign. revert new vals.
  induction roots as [|r roots IH]; simpl; intros new vals Hnd Hin; [contradiction|].
  destruct vals as [|v0 vals]; simpl in *; [contradiction|].
  inversion Hnd as [|? ? Hni Hnd']; subst.
  destruct Hin as [[= -> ->]|Hin].
  - change (lookup root (assign (setattr new root v) roots vals) = Some v).
    rewrite assign_lookup_other by exact Hni. apply lookup_dict_set_eq.
  - now apply IH.
Qed.

Lemma Forall2_combine_In {A B : Type} (R : A -> B -> Prop) (l : list A) (l' : list B) :
  Forall2 R l l' -> forall a, In a l -> exists b, In (a, b) (combine l l') /\ R a b.
Proof.
  induction 1 as [|a0 b0 l l' H0 H IH]; simpl; intros a Hin; [contradiction|].
  destruct Hin as [->|Hin].
  - exists b0. auto.
  - destruct (IH a Hin) as [b [Hb HR]]. exists b. auto.
Qed.

Section ReshapeRecursion.

Variable ord : set_iteration.

Definition roots_of (keep : list string) : list string :=
  ord (map fst (map split1 keep)).

Lemma roots_of_In keep root :
  In root (roots_of keep) <-> exists p, In p keep /\ fst (split1 p) = root.
Proof.
  unfold roots_of. rewrite iter_In, map_map, in_map_iff.
  split; intros [p [H1 H2]]; exists p; auto.
Qed.

Lemma new_value_for_ext rec1 rec2 self resource leafs versioned root val :
  (forall x, rec1 x leafs versioned = rec2 x leafs versioned) ->
  new_value_for rec1 self resource leafs versioned root val =
  new_value_for rec2 self resource leafs versioned root val.
Proof.
  intros H. destruct val; simpl; try reflexivity.
  - unfold _reshape_many_with. now rewrite (mapM_ext_in _ _ xs (fun a _ => H a)).
  - destruct leafs; [reflexivity|]. unfold _reshape_one_with. now rewrite H.
Qed.

Lemma _reshape_body_ext rec1 rec2 self resource keep versioned :
  (forall root, In root (map fst (map split1 keep)) ->
                forall x, rec1 x (leafs_of (map split1 keep) root) versioned =
                          rec2 x (leafs_of (map split1 keep) root) versioned) ->
  _reshape_body ord rec1 self resource keep versioned =
  _reshape_body ord rec2 self resource keep versioned.
Proof.
  intros H. unfold _reshape_body. apply foldM_ext_in.
  intros root Hroot new. apply iter_In in Hroot. unfold _reshape_step.
  destruct (getattr resource root); simpl; [|reflexivity].
  erewrite new_value_for_ext; [reflexivity | apply H, Hroot].
Qed.

Lemma _reshape_fuel_stable self versioned n :
  forall m keep resource,
    need keep <= n -> need keep <= m ->
    _reshape_fuel ord n self resource keep versioned =
    _reshape_fuel ord m self resource keep versioned.
Proof.
  induction n as [|n IH]; intros m keep resource Hn Hm.
  - unfold need in Hn. lia.
  - destruct m as [|m]; [unfold need in Hm; lia|]. simpl.
    apply _reshape_body_ext. intros root Hroot x.
    pose proof (need_leafs keep root Hroot).
    apply IH; lia.
Qed.

(** [_reshape] satisfies the recursive equation of the source. *)
Lemma _reshape_unfold self resource keep versioned :
  _reshape ord self resource keep versioned =
  _reshape_body ord (_reshape ord self) self resource keep versioned.
Proof.
  unfold _reshape at 1. unfold need. simpl.
  apply _reshape_body_ext. intros root Hroot x.
  pose proof (need_leafs keep root Hroot) as Hlt. unfold _reshape.
  apply _reshape_fuel_stable; unfold need in *; lia.
Qed.

Lemma _reshape_mapM self resource keep versioned :
  _reshape ord self resource keep versioned =
  (vals <- mapM (root_value (_reshape ord self) self resource
                            (map split1 keep) versioned) (roots_of keep) ;;
   Ok (assign (Resource_new []) (roots_of keep) vals)).
Proof.
  rewrite _reshape_unfold. unfold _reshape_body. apply foldM_steps.
Qed.

(** A reshape that returns: every root has a value, stored under it. *)
Lemma _reshape_Ok self resource keep versioned new :
  _reshape ord self resource keep versioned = Ok new <->
  exists vals,
    Forall2 (fun root nv =>
               root_value (_reshape ord self) self resource
                          (map split1 keep) versioned root = Ok nv)
            (roots_of keep) vals /\
    new = assign (Resource_new []) (roots_of keep) vals.
Proof.
  rewrite _reshape_mapM, bind_Ok. split.
  - intros [vals [Hvals [= <-]]]. exists vals. split; [now apply mapM_Ok | reflexivity].
  - intros [vals [Hvals ->]]. exists vals. split; [now apply mapM_Ok | reflexivity].
Qed.

Lemma _reshape_Ok_root self resource keep versioned new root :
  _reshape ord self resource keep versioned = Ok new ->
  In root (roots_of keep) ->
  exists nv,
    root_value (_reshape ord self) self resource (map split1 keep) versioned root
    = Ok nv /\ lookup root new = Some nv.
Proof.
  intros H Hroot. apply _reshape_Ok in H as [vals [Hvals ->]].
  destruct (Forall2_combine_In _ _ _ Hvals root Hroot) as [nv [Hin Hnv]].
  exists nv. split; [exact Hnv|].
  apply assign_lookup; [apply iter_NoDup | exact Hin].
Qed.

Lemma _reshape_Ok_other self resource keep versioned new k :
  _reshape ord self resource keep versioned = Ok new ->
  ~ In k (roots_of keep) ->
  lookup k new = lookup k (Resource_new []).
Proof.
  intros H Hk. apply _reshape_Ok in H as [vals [_ ->]].
  now apply assign_lookup_other.
Qed.

(** A reshape that raises: the exception comes from one of the roots. *)
Lemma _reshape_Err self resource keep versioned e :
  _reshape ord self resource keep versioned = Err e ->
  exists root,
    In root (roots_of keep) /\
    root_value (_reshape ord self) self resource (map split1 keep) versioned root
    = Err e.
Proof.
  rewrite _reshape_mapM. intros H.
  apply bind_Err in H as [H|[vals [_ H]]]; [|discriminate].
  now apply mapM_Err in H.
Qed.

Lemma _reshape_fails self resource keep versioned root e :
  In root (roots_of keep) ->
  root_value (_reshape ord self) self resource (map split1 keep) versioned root
  = Err e ->
  exists e', _reshape ord self resource keep versioned = Err e'.
Proof.
  intros Hroot H. rewrite _reshape_mapM.
  destruct (mapM_fails _ _ _ _ Hroot H) as [e' ->]. simpl. eauto.
Qed.

Lemma _reshape_nil self resource versioned :
  _reshape ord self resource [] versioned = Ok (Resource_new []).
Proof.
  rewrite _reshape_mapM.
  assert (E : roots_of [] = []).
  { destruct (roots_of []) as [|r l] eqn:E; [reflexivity|].
    assert (Hin : In r (roots_of [])) by (rewrite E; now left).
    apply roots_of_In in Hin as [p [[] _]]. }
  rewrite E. reflexivity.
Qed.

End ReshapeRecursion.

Lemma NoDup_singleton (l : list string) (r : string) :
  NoDup l -> (forall x, In x l <-> x = r) -> l = [r].
Proof.
  intros Hnd H. destruct l as [|a l].
  - exfalso. now apply (H r).
  - assert (a = r) by (apply H; now left). subst a.
    destruct l as [|b l]; [reflexivity|].
    assert (b = r) by (apply H; right; now left). subst b.
    inversion Hnd as [|? ? Hni _]. exfalso. apply Hni. now left.
Qed.

Lemma Forall2_impl_combine {A B : Type} (P Q : A -> B -> Prop) (l : list A) (l' : list B) :
  (forall a b, In (a, b) (combine l l') -> P a b -> Q a b) ->
  Forall2 P l l' -> Forall2 Q l l'.
Proof.
  intros H HP. induction HP as [|a b l l' Hab HP IH]; constructor.
  - apply H; [now left | exact Hab].
  - apply IH. intros a' b' Hin. apply H. now right.
Qed.

Lemma Forall2_map_l {A B C : Type} (f : A -> C) (P : C -> B -> Prop) (l : list A) (l' : list B) :
  Forall2 P (map f l) l' <-> Forall2 (fun a b => P (f a) b) l l'.
Proof.
  revert l'. induction l as [|a l IH]; simpl; intros l'.
  - split; intros H; inversion H; constructor.
  - split; intros H; inversion H; subst; constructor; auto; now apply IH.
Qed.

Section ReshapeFacts.

Variable ord : set_iteration.

Lemma roots_of_singleton keep root :
  keep <> [] -> (forall p, In p keep -> fst (split1 p) = root) ->
  roots_of ord keep = [root].
Proof.
  intros Hne H. apply NoDup_singleton; [apply iter_NoDup|].
  intros x. rewrite roots_of_In. split.
  - intros [p [Hp <-]]. auto.
  - intros ->. destruct keep as [|p keep]; [contradiction|].
    exists p. split; [now left | apply H; now left].
Qed.

(** Without versioning, the only exception is a failed attribute
    lookup. *)
Lemma _reshape_unversioned_Err self keep :
  forall resource e,
    _reshape ord self resource keep false = Err e ->
    exists name, e = AttributeError name.
Proof.
  induction keep as [keep IH] using keep_ind. intros resource e H.
  apply _reshape_Err in H as [root [Hroot H]].
  unfold roots_of in Hroot. apply iter_In in Hroot.
  unfold root_value in H. apply bind_Err in H as [H|[val [_ H]]].
  - unfold getattr in H. destruct resource; try (injection H as <-; eauto).
    destruct (lookup root attrs); [discriminate | injection H as <-; eauto].
  - destruct val; simpl in H; try (rewrite andb_false_r in H; discriminate).
    + apply bind_Err in H as [H|[rs [_ H]]]; [|discriminate].
      apply mapM_Err in H as [x [_ H]]. eapply IH; eauto.
    + destruct (leafs_of (map split1 keep) root) eqn:E; [discriminate|].
      apply bind_Err in H as [H|[rs [_ H]]]; [|discriminate].
      unfold _reshape_one_with in H. rewrite <- E in H. eapply IH; eauto.
Qed.

(** The metadata is reset unless a reserved attribute is itself kept. *)
Lemma _reshape_default_metadata self resource keep versioned new :
  (forall root, In root (map fst (map split1 keep)) -> reserved root = false) ->
  _reshape ord self resource keep versioned = Ok new ->
  default_metadata new.
Proof.
  intros Hres H.
  assert (Hk : forall k, reserved k = true -> ~ In k (roots_of ord keep)).
  { intros k Hk Hin. unfold roots_of in Hin. apply iter_In in Hin.
    rewrite (Hres k Hin) in Hk. discriminate. }
  pose proof (Resource_new_default []) as [H1 [H2 [H3 H4]]].
  unfold default_metadata.
  repeat split;
    (erewrite _reshape_Ok_other; [eassumption | exact H | apply Hk; reflexivity]).
Qed.

(** Reshaping what was reshaped, with the same paths and without
    versioning, changes nothing. *)
Lemma _reshape_idempotent self keep :
  forall resource new,
    _reshape ord self resource keep false = Ok new ->
    _reshape ord self (VRes new) keep false = Ok new.
Proof.
  induction keep as [keep IH] using keep_ind. intros resource new H.
  pose proof H as H0.
  apply _reshape_Ok in H as [vals [Hvals Hnew]].
  apply _reshape_Ok. exists vals. split; [|exact Hnew].
  revert Hvals. apply Forall2_impl_combine. intros root nv Hin Hnv.
  assert (Hroot : In root (map fst (map split1 keep))).
  { apply in_combine_l in Hin. unfold roots_of in Hin. now apply iter_In in Hin. }
  assert (Hlook : lookup root new = Some nv).
  { rewrite Hnew. apply assign_lookup; [apply iter_NoDup | exact Hin]. }
  unfold root_value in *. simpl. rewrite Hlook. simpl.
  apply bind_Ok in Hnv as [val [_ Hnv]].
  destruct val; simpl in Hnv;
    try (rewrite andb_false_r in Hnv; injection Hnv as <-; simpl;
         now rewrite andb_false_r).
  - apply bind_Ok in Hnv as [rs [Hrs [= <-]]]. simpl.
    unfold _reshape_many_with in *.
    assert (E : mapM (fun x => _reshape ord self x (leafs_of (map split1 keep) root) false)
                     (map VRes rs) = Ok rs).
    { apply mapM_Ok, Forall2_map_l. apply mapM_Ok in Hrs.
      clear - Hrs IH Hroot. induction Hrs as [|x r xs rs Hx _ IHrs]; constructor.
      - eapply IH; eauto.
      - exact IHrs. }
    rewrite E. reflexivity.
  - destruct (leafs_of (map split1 keep) root) eqn:E.
    + injection Hnv as <-. simpl. now rewrite shallow_copy_idem.
    + apply bind_Ok in Hnv as [r [Hr [= <-]]]. simpl.
      unfold _reshape_one_with in *. rewrite <- E in *.
      rewrite (IH root Hroot _ _ Hr). reflexivity.
Qed.

End ReshapeFacts.

(** ** Totality: the fuel is never exhausted *)

Lemma getattr_no_RecursionError (obj : value) (name : string) :
  getattr obj name <> Err RecursionError.
Proof.
  unfold getattr. destruct obj; try discriminate.
  destruct (lookup name attrs); discriminate.
Qed.

Lemma getattr_chain_no_RecursionError (names : list string) :
  forall obj, getattr_chain obj names <> Err RecursionError.
Proof.
  induction names as [|n names IH]; intros obj; simpl; [discriminate|].
  destruct (String.eqb n ""); [discriminate|].
  intros H. apply bind_Err in H as [H|[v [_ H]]].
  - exact (getattr_no_RecursionError obj n H).
  - exact (IH v H).
Qed.

Lemma format_field_no_RecursionError (field : string) (x : value) :
  format_field field x <> Err RecursionError.
Proof.
  unfold format_field.
  destruct (contains_char "!" field || contains_char ":" field
            || contains_char "[" field); [discriminate|].
  destruct (split_char "." field) as [arg attrs].
  destruct (all_digits arg); [discriminate|].
  destruct (String.eqb arg "x"); [|discriminate].
  intros H. apply bind_Err in H as [H|[v [_ H]]].
  - exact (getattr_chain_no_RecursionError attrs x H).
  - destruct v as [| [|] | | | |]; discriminate.
Qed.

Lemma format_no_RecursionError (template : string) (x : value) :
  forall st, format_scan template st x <> Err RecursionError.
Proof.
  assert (Hlit : forall (m : result string) (k : string -> string),
             m <> Err RecursionError ->
             (s <- m ;; Ok (k s)) <> Err RecursionError).
  { intros m k Hm H. apply bind_Err in H as [H|[s [_ H]]]; [auto | discriminate]. }
  assert (Hfld : forall f (m : result string),
             m <> Err RecursionError ->
             (v <- format_field f x ;; s <- m ;; Ok (String.append v s))
             <> Err RecursionError).
  { intros f m Hm H. apply bind_Err in H as [H|[v [_ H]]].
    - exact (format_field_no_RecursionError f x H).
    - exact (Hlit m (String.append v) Hm H). }
  induction template as [|c rest IH]; intros st; simpl.
  - destruct st; discriminate.
  - destruct st; repeat (destruct (Ascii.eqb c _)); auto; discriminate.
Qed.

Section Totality.

Variable ord : set_iteration.

(** [_reshape] never exhausts the fuel it is started with. *)
Lemma _reshape_no_RecursionError (self : Reshaper) (keep : list string) :
  forall resource versioned,
    _reshape ord self resource keep versioned <> Err RecursionError.
Proof.
  induction keep as [keep IH] using keep_ind. intros resource versioned H.
  apply _reshape_Err in H as [root [Hroot H]].
  unfold roots_of in Hroot. apply iter_In in Hroot.
  unfold root_value in H. apply bind_Err in H as [H|[val [_ H]]].
  - exact (getattr_no_RecursionError resource root H).
  - assert (Hscalar : (if String.eqb root "id" && versioned
                       then s <- format (versioned_id_template self) resource ;;
                            Ok (VStr s)
                       else Ok val) <> Err RecursionError).
    { destruct (String.eqb root "id" && versioned); [|discriminate].
      intros H'. apply bind_Err in H' as [H'|[s [_ H']]]; [|discriminate].
      exact (format_no_RecursionError _ _ _ H'). }
    destruct val; simpl in H; try exact (Hscalar H).
    + apply bind_Err in H as [H|[rs [_ H]]]; [|discriminate].
      apply mapM_Err in H as [x [_ H]]. exact (IH root Hroot x versioned H).
    + destruct (leafs_of (map split1 keep) root) eqn:E; [discriminate|].
      apply bind_Err in H as [H|[rs [_ H]]]; [|discriminate].
      unfold _reshape_one_with in H. rewrite <- E in H.
      exact (IH root Hroot _ versioned H).
Qed.

End Totality.

(* ================================================================= *)
(** * The reshaper: specification statements *)

(** C2: when [_reshape] returns and a kept root holds a scalar, the value
    stored under that root is the version template formatted with the
    source resource as [x] if the root is "id" and [versioned] is set,
    and the scalar itself otherwise; in particular reshaping a resource
    whose id is "123" with keep ["id"], versioning and the template
    "{x.id}-v1" yields the id "123-v1". *)
Theorem C2_scalar_root_versioned_id :
  (forall (ord : set_iteration) (self : Reshaper) (resource : value)
          (keep : list string) (versioned : bool) (new : Resource)
          (root : string) (val : value),
      _reshape ord self resource keep versioned = Ok new ->
      In root (map fst (map split1 keep)) ->
      getattr resource root = Ok val ->
      is_scalar val = true ->
      if String.eqb root "id" && versioned
      then exists s, format (versioned_id_template self) resource = Ok s /\
                     lookup root new = Some (VStr s)
      else lookup root new = Some val)
  /\
  (forall (ord : set_iteration) (x : value),
      getattr x "id" = Ok (VStr "123") ->
      exists new,
        _reshape ord {| versioned_id_template := "{x.id}-v1" |} x ["id"] true = Ok new /\
        lookup "id" new = Some (VStr "123-v1")).
Proof.
  split.
  - intros ord self resource keep versioned new root val H Hroot Hval Hsc.
    assert (Hin : In root (roots_of ord keep)) by (apply iter_In; exact Hroot).
    destruct (_reshape_Ok_root _ _ _ _ _ _ _ H Hin) as [nv [Hnv Hlook]].
    unfold root_value in Hnv. rewrite Hval in Hnv. simpl in Hnv.
    destruct val; try discriminate; simpl in Hnv;
      (destruct (String.eqb root "id" && versioned);
       [ apply bind_Ok in Hnv as [txt [Htxt [= <-]]]; eauto
       | injection Hnv as <-; exact Hlook ]).
  - intros ord x Hid.
    assert (Hfmt : format "{x.id}-v1" x = Ok "123-v1").
    { unfold format. cbn. unfold format_field. cbn. rewrite Hid. reflexivity. }
    rewrite _reshape_mapM.
    rewrite (roots_of_singleton ord ["id"] "id");
      [|discriminate | intros p [<-|[]]; reflexivity].
    cbn [mapM]. unfold root_value at 1. rewrite Hid.
    cbn [bind new_value_for versioned_id_template].
    change (String.eqb "id" "id" && true) with true. cbv iota.
    rewrite Hfmt. cbn [bind].
    eexists. split; reflexivity.
Qed.

Lemma C2_scalar_root_versioned_id_witness :
  exists s, format "{x.id}-v1" example_resource = Ok s /\
            lookup "id"
                   [("_last_action", VNone); ("_validated", VBool false);
                    ("_synchronized", VBool false); ("_store_metadata", VNone);
                    ("id", VStr "123-v1"); ("type", VStr "Type")]
            = Some (VStr s).
Proof.
  exact (proj1 C2_scalar_root_versioned_id first_seen example_reshaper
               example_resource ["id"; "type"] true _ "id" (VStr "123")
               eq_refl (or_introl eq_refl) eq_refl eq_refl).
Defined.

Lemma has_field_false (x : value) (name : string) :
  has_field x name = false -> getattr x name = Err (AttributeError name).
Proof.
  unfold has_field, getattr. destruct x; try reflexivity.
  destruct (lookup name attrs); [discriminate | reflexivity].
Qed.

Lemma covered_reshapes (ord : set_iteration) (self : Reshaper) (keep : list string) :
  forall x, covered x keep -> exists new, _reshape ord self x keep false = Ok new.
Proof.
  induction keep as [keep IH] using keep_ind. intros x Hcov.
  inversion Hcov as [? ? Hfield Hlist Hres]; subst.
  rewrite _reshape_mapM.
  destruct (mapM_total (root_value (_reshape ord self) self x (map split1 keep) false)
                       (roots_of ord keep)) as [vals ->]; [|simpl; eauto].
  intros root Hroot. unfold roots_of in Hroot. apply iter_In in Hroot.
  unfold root_value. specialize (Hfield root Hroot). unfold has_field in Hfield.
  destruct (getattr x root) as [val|] eqn:Hval; [clear Hfield | discriminate].
  simpl. destruct val; simpl; try (rewrite andb_false_r; eauto).
  - unfold _reshape_many_with.
    destruct (mapM_total (fun e => _reshape ord self e (leafs_of (map split1 keep) root) false)
                         xs) as [rs ->]; [|simpl; eauto].
    intros e He. apply IH; [exact Hroot|]. eapply Hlist; eauto.
  - destruct (leafs_of (map split1 keep) root) as [|l ls] eqn:E; [eauto|].
    unfold _reshape_one_with. rewrite <- E.
    destruct (IH root Hroot (VRes attrs)) as [r ->]; [|simpl; eauto].
    apply Hres; [exact Hroot | exact Hval | rewrite E; discriminate].
Qed.

Lemma unknown_root_fails (ord : set_iteration) (self : Reshaper) (x : value)
      (keep : list string) (versioned : bool) (p : string) :
  In p keep -> has_field x (fst (split1 p)) = false ->
  exists e, _reshape ord self x keep versioned = Err e.
Proof.
  intros Hp Hf.
  apply (_reshape_fails ord self x keep versioned (fst (split1 p))
                        (AttributeError (fst (split1 p)))).
  - apply roots_of_In. eauto.
  - unfold root_value. now rewrite (has_field_false _ _ Hf).
Qed.

Lemma unknown_root_AttributeError (ord : set_iteration) (self : Reshaper) (x : value)
      (keep : list string) (p : string) :
  In p keep -> has_field x (fst (split1 p)) = false ->
  exists name, _reshape ord self x keep false = Err (AttributeError name).
Proof.
  intros Hp Hf.
  destruct (unknown_root_fails ord self x keep false p Hp Hf) as [e He].
  destruct (_reshape_unversioned_Err ord self keep x e He) as [name ->]. eauto.
Qed.

(** C3 (as amended): when keep contains a path whose root is not an
    attribute of the resource, [_reshape] raises and returns no resource,
    so the missing root is never skipped; without versioning the exception
    is always the failed attribute lookup; the exception names the missing
    root when the roots met before it in the iteration order of the set of
    roots are reshaped without exception, in particular when all the paths
    of keep have that root; conversely, without versioning, when every
    root is present on the resource and on the subtrees the leaf paths
    apply to, [_reshape] returns a resource. *)
Theorem C3_unknown_root_raises :
  (forall (ord : set_iteration) (self : Reshaper) (x : value) (keep : list string)
          (versioned : bool) (p : string),
      In p keep -> has_field x (fst (split1 p)) = false ->
      exists e, _reshape ord self x keep versioned = Err e)
  /\
  (forall (ord : set_iteration) (self : Reshaper) (x : value) (keep : list string)
          (p : string),
      In p keep -> has_field x (fst (split1 p)) = false ->
      exists name, _reshape ord self x keep false = Err (AttributeError name))
  /\
  (forall (ord : set_iteration) (self : Reshaper) (x : value) (keep : list string)
          (versioned : bool) (before after : list string) (root : string),
      roots_of ord keep = before ++ root :: after ->
      (forall r, In r before ->
                 exists nv, root_value (_reshape ord self) self x (map split1 keep)
                                       versioned r = Ok nv) ->
      has_field x root = false ->
      _reshape ord self x keep versioned = Err (AttributeError root))
  /\
  (forall (ord : set_iteration) (self : Reshaper) (x : value) (keep : list string)
          (versioned : bool) (root : string),
      keep <> [] -> (forall p, In p keep -> fst (split1 p) = root) ->
      has_field x root = false ->
      _reshape ord self x keep versioned = Err (AttributeError root))
  /\
  (forall (ord : set_iteration) (self : Reshaper) (x : value) (keep : list string),
      covered x keep -> exists new, _reshape ord self x keep false = Ok new).
Proof.
  repeat split.
  - exact unknown_root_fails.
  - exact unknown_root_AttributeError.
  - intros ord self x keep versioned before after root Hroots Hbefore Hf.
    rewrite _reshape_mapM, Hroots.
    rewrite (mapM_first_Err _ before after root (AttributeError root)); auto.
    unfold root_value. now rewrite (has_field_false _ _ Hf).
  - intros ord self x keep versioned root Hne Hall Hf.
    rewrite _reshape_mapM, (roots_of_singleton ord keep root Hne Hall).
    simpl. unfold root_value. now rewrite (has_field_false _ _ Hf).
  - intros ord self x keep. apply covered_reshapes.
Qed.

(** [covered] on concrete resources and keep lists. *)
Ltac covered_tac :=
  let root := fresh "root" in
  let Hin := fresh "Hin" in
  let Hget := fresh "Hget" in
  let He := fresh "He" in
  let Hne := fresh "Hne" in
  constructor;
  [ intros root Hin; cbn in Hin;
    repeat (destruct Hin as [<-|Hin]; [reflexivity|]); contradiction
  | intros root ? ? Hin Hget He; cbn in Hin;
    repeat (destruct Hin as [<-|Hin];
            [ cbn in Hget;
              first [ discriminate Hget
                    | injection Hget as <-; cbn in He;
                      repeat (destruct He as [<-|He]; [cbn; covered_tac|]);
                      contradiction ]
            |]);
    contradiction
  | intros root ? Hin Hget Hne; cbn in Hin;
    repeat (destruct Hin as [<-|Hin];
            [ cbn in Hget;
              first [ discriminate Hget
                    | injection Hget as <-;
                      first [ exfalso; apply Hne; reflexivity
                            | cbn; covered_tac ] ]
            |]);
    contradiction ].

Lemma example_covered : covered example_resource ["id"; "p.name"; "items.q"].
Proof. unfold example_resource, example_attributes, example_nested. covered_tac. Qed.

Lemma C3_unknown_root_raises_witness :
  _reshape first_seen example_reshaper example_resource ["nonexistent"] false
  = Err (AttributeError "nonexistent") /\
  (exists name,
      _reshape first_seen example_reshaper example_resource ["id"; "zz.a"] false
      = Err (AttributeError name)) /\
  (exists new,
      _reshape first_seen example_reshaper example_resource
               ["id"; "p.name"; "items.q"] false = Ok new) /\
  _reshape first_seen example_reshaper example_resource ["id"; "zz.a"; "yy"] false
  = Err (AttributeError "zz").
Proof.
  split; [|split; [|split]]; cycle 3.
  - refine (proj1 (proj2 (proj2 C3_unknown_root_raises)) first_seen example_reshaper
                  example_resource ["id"; "zz.a"; "yy"] false ["id"] ["yy"] "zz"
                  eq_refl _ eq_refl).
    intros r [<-|[]]. eexists. reflexivity.
  - refine (proj1 (proj2 (proj2 (proj2 C3_unknown_root_raises))) first_seen
                  example_reshaper example_resource ["nonexistent"] false
                  "nonexistent" _ _ eq_refl).
    + discriminate.
    + intros p [<-|[]]. reflexivity.
  - exact (proj1 (proj2 C3_unknown_root_raises) first_seen example_reshaper
                 example_resource ["id"; "zz.a"] "zz.a"
                 (or_intror (or_introl eq_refl)) eq_refl).
  - exact (proj2 (proj2 (proj2 (proj2 C3_unknown_root_raises))) first_seen
                 example_reshaper example_resource ["id"; "p.name"; "items.q"]
                 example_covered).
Defined.

(** Two roots are missing and one exception is raised: whatever the
    iteration order of the set of roots, one of the missing roots is not
    the one the exception names.  With versioning, a template that refers
    to an attribute the resource lacks makes [_reshape] raise the same
    kind of exception although every root of keep is present, and a
    template that fails otherwise is reported in place of a missing root
    met later. *)
Lemma C3_unknown_root_raises_counterexample :
  (has_field (VRes (Resource_new [])) "aa" = false /\
   has_field (VRes (Resource_new [])) "zz" = false /\
   _reshape first_seen example_reshaper (VRes (Resource_new [])) ["aa"; "zz"] false
   = Err (AttributeError "aa") /\
   _reshape last_seen example_reshaper (VRes (Resource_new [])) ["aa"; "zz"] false
   = Err (AttributeError "zz") /\
   ~ (forall (ord : set_iteration) (p : string),
         In p ["aa"; "zz"] ->
         has_field (VRes (Resource_new [])) (fst (split1 p)) = false ->
         _reshape ord example_reshaper (VRes (Resource_new [])) ["aa"; "zz"] false
         = Err (AttributeError (fst (split1 p)))))
  /\
  (covered example_resource ["id"] /\
   _reshape first_seen {| versioned_id_template := "{x.rev}" |}
            example_resource ["id"] true
   = Err (AttributeError "rev"))
  /\
  (has_field example_resource "zz" = false /\
   _reshape first_seen {| versioned_id_template := "{y}" |}
            example_resource ["id"; "zz"] true
   = Err (KeyError "y")).
Proof.
  split; [repeat split; try reflexivity
         | split; [split; [|reflexivity] | split; reflexivity]].
  - intros H.
    pose proof (H first_seen "zz" (or_intror (or_introl eq_refl)) eq_refl) as Hzz.
    discriminate Hzz.
  - constructor.
    + intros root [<-|[]]. reflexivity.
    + intros root xs e [<-|[]] H. discriminate H.
    + intros root attributes [<-|[]] H. discriminate H.
Qed.

(** C4: the policy stated for [reshape] is that the returned resource is
    not synchronized and not validated and has no last action and no store
    metadata.  It holds when no kept root is one of the reserved
    attributes, and it is broken when one is: the scalar branch copies the
    reserved attribute of the source into the new resource. *)
Theorem C4_metadata_reset_broken_by_reserved_root :
  (forall (ord : set_iteration) (self : Reshaper) (resource : value)
          (keep : list string) (versioned : bool) (new : Resource),
      (forall root, In root (map fst (map split1 keep)) -> reserved root = false) ->
      _reshape ord self resource keep versioned = Ok new ->
      default_metadata new)
  /\
  (forall (ord : set_iteration) (self : Reshaper),
      exists new,
        _reshape ord self example_synchronized ["_synchronized"] false = Ok new /\
        lookup "_synchronized" new = Some (VBool true) /\
        ~ default_metadata new).
Proof.
  split.
  - intros ord self resource keep versioned new Hres H.
    exact (_reshape_default_metadata ord self resource keep versioned new Hres H).
  - intros ord self. rewrite _reshape_mapM.
    rewrite (roots_of_singleton ord ["_synchronized"] "_synchronized");
      [|discriminate | intros p [<-|[]]; reflexivity].
    eexists. split; [reflexivity|]. split; [reflexivity|].
    intros [_ [_ [H _]]]. discriminate H.
Qed.

Lemma C4_metadata_reset_broken_by_reserved_root_witness :
  default_metadata
    [("_last_action", VNone); ("_validated", VBool false);
     ("_synchronized", VBool false); ("_store_metadata", VNone);
     ("id", VStr "123")].
Proof.
  refine (proj1 C4_metadata_reset_broken_by_reserved_root first_seen example_reshaper
                example_synchronized ["id"] false _ _ eq_refl).
  intros root [<-|[]]. reflexivity.
Defined.

(** C5: when [_reshape] returns and a kept root holds a nested resource
    for which keep has no leaf path, the value stored under the root is a
    new resource with the properties of the nested resource: the same
    keys in the same order with the very same values (what is nested below
    them is not pruned), the four reserved attributes being left out of
    the copy and set to their defaults on the new resource. *)
Theorem C5_whole_subobject_shallow_copy
        (ord : set_iteration) (self : Reshaper) (resource : value)
        (keep : list string) (versioned : bool) (new : Resource)
        (root : string) (attributes : list (string * value)) :
  _reshape ord self resource keep versioned = Ok new ->
  In root (map fst (map split1 keep)) ->
  getattr resource root = Ok (VRes attributes) ->
  leafs_of (map split1 keep) root = [] ->
  exists copy,
    lookup root new = Some (VRes copy) /\
    copy = Resource_new (filter (fun kv => negb (reserved (fst kv))) attributes) /\
    filter (fun kv => negb (reserved (fst kv))) copy
    = filter (fun kv => negb (reserved (fst kv))) attributes /\
    (forall k, reserved k = false -> lookup k copy = lookup k attributes) /\
    default_metadata copy.
Proof.
  intros H Hroot Hval Hleafs.
  assert (Hin : In root (roots_of ord keep)) by (apply iter_In; exact Hroot).
  destruct (_reshape_Ok_root _ _ _ _ _ _ _ H Hin) as [nv [Hnv Hlook]].
  unfold root_value in Hnv. rewrite Hval, Hleafs in Hnv. simpl in Hnv.
  injection Hnv as <-.
  eexists. split; [exact Hlook|]. split; [reflexivity|]. split; [|split].
  - apply shallow_copy_idem.
  - intros k Hk. rewrite Resource_new_lookup by exact Hk.
    apply (lookup_filter_keys (fun s => negb (reserved s))). now rewrite Hk.
  - apply Resource_new_default.
Qed.

Lemma C5_whole_subobject_shallow_copy_witness :
  exists copy,
    lookup "p"
           [("_last_action", VNone); ("_validated", VBool false);
            ("_synchronized", VBool false); ("_store_metadata", VNone);
            ("p", example_nested)]
    = Some (VRes copy) /\
    copy = Resource_new (filter (fun kv => negb (reserved (fst kv)))
                                (Resource_new [("name", VStr "n");
                                               ("tags", VList [VStr "a"; VStr "b"])])) /\
    filter (fun kv => negb (reserved (fst kv))) copy
    = filter (fun kv => negb (reserved (fst kv)))
             (Resource_new [("name", VStr "n"); ("tags", VList [VStr "a"; VStr "b"])]) /\
    (forall k, reserved k = false ->
               lookup k copy
               = lookup k (Resource_new [("name", VStr "n");
                                         ("tags", VList [VStr "a"; VStr "b"])])) /\
    default_metadata copy.
Proof.
  exact (C5_whole_subobject_shallow_copy first_seen example_reshaper example_resource
           ["p"] false _ "p" _ eq_refl (or_introl eq_refl) eq_refl eq_refl).
Defined.

(** C8: reshaping the result of a reshape again with the same keep list
    (without versioning, as in the two-argument call) returns that result
    unchanged, for a single resource and for a list of resources. *)
Theorem C8_reshape_idempotent
        (ord : set_iteration) (self : Reshaper) (data : value)
        (keep : list string) (reshaped : value) :
  reshape ord self data keep false = Ok reshaped ->
  reshape ord self reshaped keep false = Ok reshaped.
Proof.
  unfold reshape, dispatch, _reshape_many, _reshape_one,
    _reshape_many_with, _reshape_one_with.
  destruct data; try discriminate; intros H.
  - apply bind_Ok in H as [rs [Hrs [= <-]]].
    assert (E : mapM (fun x => _reshape ord self x keep false) (map VRes rs) = Ok rs).
    { apply mapM_Ok, Forall2_map_l. apply mapM_Ok in Hrs.
      induction Hrs as [|x r xs' rs Hx _ IH]; constructor.
      - now apply _reshape_idempotent with (resource := x).
      - exact IH. }
    rewrite E. reflexivity.
  - apply bind_Ok in H as [r [Hr [= <-]]].
    now rewrite (_reshape_idempotent ord self keep _ _ Hr).
Qed.

Lemma C8_reshape_idempotent_witness :
  reshape first_seen example_reshaper example_reshaped
          ["id"; "p.name"; "items.q"] false
  = Ok example_reshaped.
Proof.
  exact (C8_reshape_idempotent first_seen example_reshaper example_resource
           ["id"; "p.name"; "items.q"] example_reshaped eq_refl).
Defined.

Lemma split1_trailing_dot (root : string) :
  contains_char "." root = false ->
  split1 (String.append root ".") = (root, Some EmptyString).
Proof.
  unfold contains_char. induction root as [|c root IH]; simpl; [reflexivity|].
  destruct (Ascii.eqb c "."); simpl; intros H.
  - discriminate H.
  - now rewrite (IH H).
Qed.

(** C9 (as amended): no path is rejected for its syntax.  The empty path
    names the empty root, and a path ending in the delimiter names the
    empty leaf under its root; either is looked up like any attribute.
    So [_reshape] with keep [""] raises the attribute lookup failure that
    names the empty string when the resource has no attribute of that
    name; under a root that holds a nested resource without such an
    attribute the trailing delimiter raises the same exception; under a
    root that holds a scalar it is ignored and the scalar is kept; and
    [collect_values] reports the empty path with the exception of its
    caller, as it does for any unknown root. *)
Theorem C9_no_path_syntax_check :
  (forall (ord : set_iteration) (self : Reshaper) (x : value) (versioned : bool),
      has_field x "" = false ->
      _reshape ord self x [""] versioned = Err (AttributeError ""))
  /\
  (forall (ord : set_iteration) (self : Reshaper) (x : value) (versioned : bool)
          (root : string) (attributes : list (string * value)),
      contains_char "." root = false ->
      getattr x root = Ok (VRes attributes) ->
      lookup "" attributes = None ->
      _reshape ord self x [String.append root "."] versioned = Err (AttributeError ""))
  /\
  (forall (ord : set_iteration) (self : Reshaper) (x : value)
          (root : string) (val : value),
      contains_char "." root = false ->
      getattr x root = Ok val -> is_scalar val = true ->
      exists new,
        _reshape ord self x [String.append root "."] false = Ok new /\
        lookup root new = Some val)
  /\
  (forall (ord : set_iteration) (x : value) (exception : string -> exn),
      has_field x "" = false ->
      match x with VRes _ => True | _ => False end ->
      collect_values ord x "" exception = Err (exception "path to follow is incorrect")).
Proof.
  assert (Hempty : forall ord self x versioned,
             has_field x "" = false ->
             _reshape ord self x [""] versioned = Err (AttributeError "")).
  { intros ord self x versioned Hf.
    rewrite _reshape_mapM, (roots_of_singleton ord [""] "");
      [|discriminate | intros p [<-|[]]; reflexivity].
    simpl. unfold root_value. now rewrite (has_field_false _ _ Hf). }
  repeat split.
  - exact Hempty.
  - intros ord self x versioned root attributes Hdot Hval Hnone.
    rewrite _reshape_mapM, (roots_of_singleton ord [String.append root "."] root);
      [|discriminate | intros p [<-|[]]; now rewrite split1_trailing_dot].
    simpl. unfold root_value. rewrite Hval. simpl.
    rewrite split1_trailing_dot by exact Hdot.
    unfold leafs_of. simpl. rewrite String.eqb_refl. simpl.
    unfold _reshape_one_with. rewrite Hempty; [reflexivity|].
    unfold has_field. simpl. now rewrite Hnone.
  - intros ord self x root val Hdot Hval Hsc.
    rewrite _reshape_mapM, (roots_of_singleton ord [String.append root "."] root);
      [|discriminate | intros p [<-|[]]; now rewrite split1_trailing_dot].
    cbn [mapM]. unfold root_value. rewrite Hval. cbn [bind].
    assert (E : new_value_for (_reshape ord self) self x
                  (leafs_of (map split1 [String.append root "."]) root) false root val
                = Ok val).
    { destruct val; try discriminate; simpl; now rewrite andb_false_r. }
    rewrite E. cbn [bind]. eexists. split; [reflexivity|].
    unfold assign. simpl. apply lookup_dict_set_eq.
  - intros ord x exception Hf Hres.
    destruct x; try contradiction.
    unfold collect_values, dispatch, _reshape_one, _reshape_one_with.
    now rewrite Hempty.
Qed.

Lemma C9_no_path_syntax_check_witness :
  _reshape first_seen example_reshaper example_resource [""] false
  = Err (AttributeError "") /\
  _reshape first_seen example_reshaper example_resource ["p."] false
  = Err (AttributeError "") /\
  collect_values first_seen example_resource "" Exception
  = Err (Raised "Exception" "path to follow is incorrect").
Proof.
  split; [|split].
  - exact (proj1 C9_no_path_syntax_check first_seen example_reshaper
                 example_resource false eq_refl).
  - exact (proj1 (proj2 C9_no_path_syntax_check) first_seen example_reshaper
                 example_resource false "p" _ eq_refl eq_refl eq_refl).
  - exact (proj2 (proj2 (proj2 C9_no_path_syntax_check)) first_seen
                 example_resource Exception eq_refl I).
Defined.

(** The empty path raises the attribute lookup failure itself, not an
    exception of another kind, and a trailing delimiter under a scalar
    root raises nothing at all. *)
Lemma C9_no_path_syntax_check_counterexample :
  (exists e,
      _reshape first_seen example_reshaper example_resource [""] false = Err e /\
      is_AttributeError e = true)
  /\
  (exists new,
      _reshape first_seen example_reshaper example_resource ["id."] false = Ok new).
Proof.
  split; eexists; [split|]; reflexivity.
Qed.

Lemma mapM_const {A B : Type} (f : A -> result B) (b : B) (l : list A) :
  (forall a, f a = Ok b) -> mapM f l = Ok (repeat b (length l)).
Proof.
  intros H. induction l as [|a l IH]; simpl; [reflexivity|].
  now rewrite H, IH.
Qed.

(** C10: when [_reshape] returns and a kept root holds a list, the value
    stored under the root is the list of the elements reshaped one by one
    with the leaf paths of that root, of the same length and in the same
    order; when the root has no leaf path, every element, a scalar as
    well, is replaced by an empty resource, and the elements never make
    the reshape fail. *)
Theorem C10_list_root_elementwise :
  (forall (ord : set_iteration) (self : Reshaper) (resource : value)
          (keep : list string) (versioned : bool) (new : Resource)
          (root : string) (xs : list value),
      _reshape ord self resource keep versioned = Ok new ->
      In root (map fst (map split1 keep)) ->
      getattr resource root = Ok (VList xs) ->
      exists rs,
        lookup root new = Some (VList (map VRes rs)) /\
        Forall2 (fun x r =>
                   _reshape ord self x (leafs_of (map split1 keep) root) versioned = Ok r)
                xs rs /\
        length rs = length xs /\
        (leafs_of (map split1 keep) root = [] ->
         rs = repeat (Resource_new []) (length xs)))
  /\
  (forall (ord : set_iteration) (self : Reshaper) (x : value) (versioned : bool),
      _reshape ord self x [] versioned = Ok (Resource_new []))
  /\
  (forall (ord : set_iteration) (self : Reshaper) (resource : value)
          (keep : list string) (versioned : bool) (root : string) (xs : list value),
      getattr resource root = Ok (VList xs) ->
      leafs_of (map split1 keep) root = [] ->
      root_value (_reshape ord self) self resource (map split1 keep) versioned root
      = Ok (VList (map VRes (repeat (Resource_new []) (length xs))))).
Proof.
  split; [|split].
  - intros ord self resource keep versioned new root xs H Hroot Hval.
    assert (Hin : In root (roots_of ord keep)) by (apply iter_In; exact Hroot).
    destruct (_reshape_Ok_root _ _ _ _ _ _ _ H Hin) as [nv [Hnv Hlook]].
    unfold root_value in Hnv. rewrite Hval in Hnv. simpl in Hnv.
    apply bind_Ok in Hnv as [rs [Hrs [= <-]]]. unfold _reshape_many_with in Hrs.
    exists rs. split; [exact Hlook|].
    pose proof (proj1 (mapM_Ok _ _ _) Hrs) as HF.
    split; [exact HF|]. split; [symmetry; exact (Forall2_length HF)|].
    intros E. rewrite E in Hrs.
    rewrite (mapM_const _ (Resource_new []) xs) in Hrs
      by (intros a; apply _reshape_nil).
    now injection Hrs as <-.
  - intros. apply _reshape_nil.
  - intros ord self resource keep versioned root xs Hval E.
    unfold root_value. rewrite Hval, E. simpl. unfold _reshape_many_with.
    rewrite (mapM_const _ (Resource_new []) xs) by (intros a; apply _reshape_nil).
    reflexivity.
Qed.

Lemma C10_list_root_elementwise_witness :
  exists rs,
    lookup "tags"
           [("_last_action", VNone); ("_validated", VBool false);
            ("_synchronized", VBool false); ("_store_metadata", VNone);
            ("tags", VList [VRes (Resource_new []); VRes (Resource_new [])])]
    = Some (VList (map VRes rs)) /\
    Forall2 (fun x r =>
               _reshape first_seen example_reshaper x
                        (leafs_of (map split1 ["tags"]) "tags") false = Ok r)
            [VStr "a"; VStr "b"] rs /\
    length rs = 2 /\
    (leafs_of (map split1 ["tags"]) "tags" = [] ->
     rs = repeat (Resource_new []) 2).
Proof.
  exact (proj1 C10_list_root_elementwise first_seen example_reshaper example_nested
               ["tags"] false _ "tags" [VStr "a"; VStr "b"]
               eq_refl (or_introl eq_refl) eq_refl).
Defined.

(* ================================================================= *)
(** * [collect_values]: properties *)

(** Structural induction on nested-map data, with the induction
    hypothesis available for the members of arrays and dicts. *)
Fixpoint json_nested_ind (P : json -> Prop)
         (Hnull : P JNull) (Hbool : forall b, P (JBool b))
         (Hint : forall z, P (JInt z)) (Hstr : forall s, P (JStr s))
         (Hlist : forall l, Forall P l -> P (JList l))
         (Hdict : forall d, Forall (fun kv => P (snd kv)) d -> P (JDict d))
         (x : json) {struct x} : P x :=
  match x with
  | JNull => Hnull
  | JBool b => Hbool b
  | JInt z => Hint z
  | JStr s => Hstr s
  | JList l =>
      Hlist l ((fix go (l : list json) : Forall P l :=
                  match l with
                  | [] => Forall_nil P
                  | y :: l' =>
                      Forall_cons y
                        (json_nested_ind P Hnull Hbool Hint Hstr Hlist Hdict y) (go l')
                  end) l)
  | JDict d =>
      Hdict d ((fix go (d : list (string * json)) : Forall (fun kv => P (snd kv)) d :=
                  match d with
                  | [] => Forall_nil _
                  | kv :: d' =>
                      Forall_cons kv
                        (json_nested_ind P Hnull Hbool Hint Hstr Hlist Hdict (snd kv))
                        (go d')
                  end) d)
  end.

Lemma _collect_one_dict_cons (k : string) (v : json) (d : list (string * json)) :
  _collect_one (JDict ((k, v) :: d)) =
  match v with
  | JList l => flat_map _collect_one l
  | JDict _ => _collect_one v
  | _ => [v]
  end ++ _collect_one (JDict d).
Proof.
  destruct v; reflexivity.
Qed.

Lemma all_leaves_list (l : list json) : all_leaves (JList l) = flat_map all_leaves l.
Proof.
  induction l as [|y l IH]; simpl; [reflexivity|]. simpl in IH. now rewrite IH.
Qed.

Lemma all_leaves_dict_cons (k : string) (v : json) (d : list (string * json)) :
  all_leaves (JDict ((k, v) :: d)) = all_leaves v ++ all_leaves (JDict d).
Proof. reflexivity. Qed.

Lemma arrays_of_dicts_list (l : list json) :
  arrays_of_dicts (JList l) =
  forallb (fun y => match y with JDict _ => arrays_of_dicts y | _ => false end) l.
Proof.
  induction l as [|y l IH]; simpl; [reflexivity|]. simpl in IH. now rewrite IH.
Qed.

Lemma arrays_of_dicts_dict_cons (k : string) (v : json) (d : list (string * json)) :
  arrays_of_dicts (JDict ((k, v) :: d)) = arrays_of_dicts v && arrays_of_dicts (JDict d).
Proof. reflexivity. Qed.

(** Where every array holds dicts only, [_collect] yields every scalar of
    a depth-first, left-to-right walk. *)
Lemma _collect_all_leaves (x : json) :
  arrays_of_dicts x = true ->
  match x with
  | JDict _ => _collect_one x = all_leaves x
  | JList l => flat_map _collect_one l = all_leaves x
  | _ => True
  end.
Proof.
  induction x as [| | | |l IH|d IH] using json_nested_ind; intros H; auto.
  - rewrite all_leaves_list. rewrite arrays_of_dicts_list in H.
    induction IH as [|y l Hy _ IHl]; simpl in *; [reflexivity|].
    apply andb_true_iff in H as [H1 H2].
    rewrite (IHl H2). f_equal.
    destruct y; try discriminate. exact (Hy H1).
  - induction IH as [|[k v] d Hv _ IHd]; [reflexivity|].
    rewrite _collect_one_dict_cons, all_leaves_dict_cons.
    rewrite arrays_of_dicts_dict_cons in H. apply andb_true_iff in H as [H1 H2].
    rewrite (IHd H2). f_equal. simpl in Hv. specialize (Hv H1).
    destruct v; try reflexivity; exact Hv.
Qed.

Lemma collect_values_followed ord data follow exception :
  collect_values ord data follow exception =
  except_AttributeError
    (reshaped <- followed ord data follow ;;
     Ok (_collect (match as_json reshaped with
                   | JList l => l
                   | _ => [as_json reshaped]
                   end)))
    (exception "path to follow is incorrect").
Proof. reflexivity. Qed.

Lemma followed_shape ord data follow reshaped :
  followed ord data follow = Ok reshaped ->
  (exists rs, reshaped = VList (map VRes rs)) \/ (exists r, reshaped = VRes r).
Proof.
  unfold followed, dispatch. destruct data; try discriminate; intros H.
  - apply bind_Ok in H as [rs [_ [= <-]]]. eauto.
  - apply bind_Ok in H as [r [_ [= <-]]]. eauto.
Qed.

Lemma _collect_skips (l : list json) :
  forallb (fun y => negb (is_dict y)) l = true -> flat_map _collect_one l = [].
Proof.
  induction l as [|y l IH]; simpl; [reflexivity|].
  intros H. apply andb_true_iff in H as [H1 H2]. rewrite (IH H2).
  destruct y; try reflexivity. discriminate H1.
Qed.

Lemma _collect_single (x : json) : _collect [x] = _collect_one x.
Proof. unfold _collect. simpl. apply app_nil_r. Qed.

(** C6 (as amended): when the reshape along the path succeeds and every
    array of the nested-map form of its result holds dicts only,
    [collect_values] returns exactly the scalars met by the depth-first,
    left-to-right walk through all dicts and arrays, in walk order; the
    elements of an array that are not dicts are not walked, and an array
    of such elements contributes nothing. *)
Theorem C6_collect_values_walk :
  (forall (ord : set_iteration) (data : value) (follow : string)
          (exception : string -> exn) (reshaped : value),
      followed ord data follow = Ok reshaped ->
      arrays_of_dicts (as_json reshaped) = true ->
      collect_values ord data follow exception = Ok (all_leaves (as_json reshaped)))
  /\
  (forall (k : string) (l : list json) (d : list (string * json)),
      forallb (fun y => negb (is_dict y)) l = true ->
      _collect [JDict ((k, JList l) :: d)] = _collect [JDict d]).
Proof.
  split.
  - intros ord data follow exception reshaped H Harr.
    rewrite collect_values_followed, H. simpl. f_equal.
    destruct (followed_shape ord data follow reshaped H) as [[rs ->]|[r ->]].
    + pose proof (_collect_all_leaves _ Harr) as E. simpl in E.
      simpl. unfold _collect. exact E.
    + pose proof (_collect_all_leaves _ Harr) as E. simpl in E.
      simpl. unfold _collect. simpl. rewrite app_nil_r. exact E.
  - intros k l d H. rewrite !_collect_single.
    rewrite _collect_one_dict_cons, (_collect_skips l H). reflexivity.
Qed.

Lemma C6_collect_values_walk_witness :
  collect_values first_seen example_resource "items.q" Exception
  = Ok [JInt 1; JInt 2].
Proof.
  exact (proj1 C6_collect_values_walk first_seen example_resource "items.q"
               Exception _ eq_refl eq_refl).
Defined.

(** Following [p] keeps the nested resource whole; its [tags] are an array
    of strings, which the walk of [_collect] passes over. *)
Lemma C6_collect_values_walk_counterexample :
  exists reshaped,
    followed first_seen example_resource "p" = Ok reshaped /\
    all_leaves (as_json reshaped) = [JStr "n"; JStr "a"; JStr "b"] /\
    collect_values first_seen example_resource "p" Exception = Ok [JStr "n"].
Proof.
  eexists. repeat split; reflexivity.
Qed.

(** C7: when the root of the path is not an attribute of the resource, or
    of one of the resources of the list, [collect_values] raises the
    exception built from the class chosen by its caller with the message
    "path to follow is incorrect"; and an exception of [collect_values] is
    either that one or is not an attribute lookup failure, so the failure
    of the reshaper never reaches the caller as it is. *)
Theorem C7_invalid_path_translated :
  (forall (ord : set_iteration) (attributes : list (string * value))
          (follow : string) (exception : string -> exn),
      has_field (VRes attributes) (fst (split1 follow)) = false ->
      collect_values ord (VRes attributes) follow exception
      = Err (exception "path to follow is incorrect"))
  /\
  (forall (ord : set_iteration) (xs : list value) (x : value)
          (follow : string) (exception : string -> exn),
      In x xs -> has_field x (fst (split1 follow)) = false ->
      collect_values ord (VList xs) follow exception
      = Err (exception "path to follow is incorrect"))
  /\
  (forall (ord : set_iteration) (data : value) (follow : string)
          (exception : string -> exn) (e : exn),
      collect_values ord data follow exception = Err e ->
      e = exception "path to follow is incorrect" \/ is_AttributeError e = false).
Proof.
  assert (Hone : forall ord x follow,
             has_field x (fst (split1 follow)) = false ->
             exists name,
               _reshape ord {| versioned_id_template := "" |} x [follow] false
               = Err (AttributeError name)).
  { intros ord x follow Hf.
    exact (unknown_root_AttributeError ord _ x [follow] follow
                                       (or_introl eq_refl) Hf). }
  split; [|split].
  - intros ord attributes follow exception Hf.
    destruct (Hone ord _ follow Hf) as [name E].
    unfold collect_values, dispatch, _reshape_one, _reshape_one_with.
    now rewrite E.
  - intros ord xs x follow exception Hin Hf.
    destruct (Hone ord x follow Hf) as [name E].
    destruct (mapM_fails (fun y => _reshape ord {| versioned_id_template := "" |}
                                            y [follow] false) xs x _ Hin E) as [e' E'].
    destruct (mapM_Err _ _ _ E') as [y [_ Hy]].
    apply _reshape_unversioned_Err in Hy as [name' ->].
    unfold collect_values, dispatch, _reshape_many, _reshape_many_with.
    now rewrite E'.
  - intros ord data follow exception e. rewrite collect_values_followed.
    destruct (followed ord data follow) as [reshaped|e0]; simpl; [discriminate|].
    destruct (is_AttributeError e0) eqn:E0; intros [= <-]; auto.
Qed.

Lemma C7_invalid_path_translated_witness :
  collect_values first_seen example_resource "nonexistent.url" (Raised "DownloadingError")
  = Err (Raised "DownloadingError" "path to follow is incorrect") /\
  collect_values first_seen (VList [example_resource; example_nested]) "id" Exception
  = Err (Raised "Exception" "path to follow is incorrect").
Proof.
  split.
  - exact (proj1 C7_invalid_path_translated first_seen example_attributes
                 "nonexistent.url" (Raised "DownloadingError") eq_refl).
  - exact (proj1 (proj2 C7_invalid_path_translated) first_seen
                 [example_resource; example_nested] example_nested "id" Exception
                 (or_intror (or_introl eq_refl)) eq_refl).
Defined.

(* ================================================================= *)
(** * The table codec: round trip *)

Module TableCodecFacts.
Import TableCodec.

(** Structural induction on tree values, with the induction hypothesis
    available for the fields of a nested tree. *)
Fixpoint tree_nested_ind (P : tree_value -> Prop)
         (Hscalar : forall s, P (Scalar s))
         (Harray : forall items, P (ArrayOf items))
         (Htree : forall fields, Forall (fun kv => P (snd kv)) fields -> P (Tree fields))
         (v : tree_value) {struct v} : P v :=
  match v with
  | Scalar s => Hscalar s
  | ArrayOf items => Harray items
  | Tree fields =>
      Htree fields
            ((fix go (fs : list (string * tree_value))
              : Forall (fun kv => P (snd kv)) fs :=
                match fs with
                | [] => Forall_nil _
                | kv :: fs' =>
                    Forall_cons kv
                      (tree_nested_ind P Hscalar Harray Htree (snd kv)) (go fs')
                end) fields)
  end.

Definition is_tree (v : tree_value) : bool :=
  match v with
  | Tree _ => true
  | _ => false
  end.

(** ** Leaves *)

Lemma leaves_cons (k : string) (v : tree_value) (t : ResourceTree) :
  leaves ((k, v) :: t) =
  map (fun pv => (k :: fst pv, snd pv)) (leaves_value v) ++ leaves t.
Proof. reflexivity. Qed.

Lemma leaves_value_leaf (v : tree_value) :
  is_tree v = false -> leaves_value v = [([], v)].
Proof. destruct v; [reflexivity | discriminate | reflexivity]. Qed.

Lemma leaves_no_root (t : ResourceTree) (x : tree_value) : ~ In ([], x) (leaves t).
Proof.
  induction t as [|[k v] t IH]; simpl; [tauto|].
  rewrite leaves_cons, in_app_iff, in_map_iff.
  intros [[pv [[=] _]]|H]; auto.
Qed.

(** A leaf of a tree lies below the field named by the head of its
    path. *)
Lemma leaves_In (t : ResourceTree) (k : string) (q : list string) (x : tree_value) :
  NoDup (map fst t) ->
  (In (k :: q, x) (leaves t) <->
   exists w, lookup k t = Some w /\ In (q, x) (leaves_value w)).
Proof.
  induction t as [|[k' v] t IH]; intros Hnd.
  - simpl. split; [tauto | intros [w [[=] _]]].
  - inversion Hnd as [|? ? Hni Hnd']; subst.
    rewrite leaves_cons, in_app_iff, in_map_iff. simpl lookup.
    destruct (String.eqb_spec k' k) as [->|Hk].
    + split.
      * intros [[[q' x'] [[= <- <-] Hin]]|Hin]; [eauto|].
        apply (IH Hnd') in Hin as [w [Hw _]].
        exfalso. apply Hni. apply lookup_In in Hw. now apply (in_map fst) in Hw.
      * intros [w [[= <-] Hin]]. left. now exists (q, x).
    + rewrite (IH Hnd'). split.
      * intros [[[q' x'] [[= E _ _] _]]|H]; [contradiction | exact H].
      * intros H. now right.
Qed.

Lemma leaves_In_lookup (t : ResourceTree) (k : string) (q : list string)
      (x w : tree_value) :
  lookup k t = Some w -> In (q, x) (leaves_value w) -> In (k :: q, x) (leaves t).
Proof.
  induction t as [|[k' v] t IH]; simpl; [discriminate|].
  rewrite leaves_cons, in_app_iff, in_map_iff.
  destruct (String.eqb_spec k' k) as [->|Hk].
  - intros [= <-] Hin. left. now exists (q, x).
  - intros Hw Hin. right. now apply IH.
Qed.

(** ** Unique keys *)

Lemma nodupb_NoDup (l : list string) : nodupb l = true <-> NoDup l.
Proof.
  induction l as [|x l IH]; simpl.
  - split; [constructor | reflexivity].
  - rewrite andb_true_iff, negb_true_iff, IH. split.
    + intros [Hx Hl]. constructor; [|exact Hl].
      intros Hin. assert (E : existsb (String.eqb x) l = true).
      { apply existsb_exists. exists x. split; [exact Hin | apply String.eqb_refl]. }
      congruence.
    + intros H. inversion H as [|? ? Hni Hl]; subst. split; [|exact Hl].
      destruct (existsb (String.eqb x) l) eqn:E; [|reflexivity].
      apply existsb_exists in E as [y [Hy Hxy]].
      apply String.eqb_eq in Hxy. subst y. contradiction.
Qed.

Lemma unique_keys_value_tree (fields : list (string * tree_value)) :
  unique_keys_value (Tree fields) = true <->
  NoDup (map fst fields) /\
  Forall (fun kv => unique_keys_value (snd kv) = true) fields.
Proof.
  simpl. rewrite andb_true_iff, nodupb_NoDup.
  assert (E : forall fs,
             (fix go (fs : list (string * tree_value)) : bool :=
                match fs with
                | [] => true
                | (_, v') :: fs' => unique_keys_value v' && go fs'
                end) fs = true <->
             Forall (fun kv => unique_keys_value (snd kv) = true) fs).
  { induction fs as [|[k v] fs IH].
    - split; [constructor | reflexivity].
    - rewrite andb_true_iff, IH. split.
      + intros [H1 H2]. now constructor.
      + intros H. inversion H; subst. auto. }
  now rewrite E.
Qed.

Lemma unique_keys_NoDup (t : ResourceTree) :
  unique_keys t = true -> NoDup (map fst t).
Proof. intros H. now apply unique_keys_value_tree in H. Qed.

Lemma unique_keys_lookup (t : ResourceTree) (k : string) (f : list (string * tree_value)) :
  unique_keys t = true -> lookup k t = Some (Tree f) -> unique_keys f = true.
Proof.
  intros H Hk. apply unique_keys_value_tree in H as [_ H].
  rewrite Forall_forall in H. apply lookup_In in Hk. exact (H _ Hk).
Qed.

(** In a tree with unique keys a path leads to at most one leaf. *)
Lemma leaves_functional (p : list string) :
  forall (t : ResourceTree) (v v' : tree_value),
    unique_keys t = true ->
    In (p, v) (leaves t) -> In (p, v') (leaves t) -> v = v'.
Proof.
  induction p as [|k q IH]; intros t v v' Hu Hv Hv'.
  - now apply leaves_no_root in Hv.
  - apply (leaves_In t k q v (unique_keys_NoDup t Hu)) in Hv as [w [Hw Hv]].
    apply (leaves_In t k q v' (unique_keys_NoDup t Hu)) in Hv' as [w' [Hw' Hv']].
    rewrite Hw in Hw'. injection Hw' as <-.
    destruct w as [s|f|items].
    + simpl in Hv, Hv'. destruct Hv as [[= _ <-]|[]], Hv' as [[= _ <-]|[]]. reflexivity.
    + apply (IH f); auto. now apply (unique_keys_lookup t k f).
    + simpl in Hv, Hv'. destruct Hv as [[= _ <-]|[]], Hv' as [[= _ <-]|[]]. reflexivity.
Qed.

(** ** Column names and paths *)

Lemma append_assoc (a b c : string) :
  String.append (String.append a b) c = String.append a (String.append b c).
Proof. induction a as [|x a IH]; simpl; [reflexivity | now rewrite IH]. Qed.

Lemma join_cons (delim k : string) (p : list string) :
  p <> [] ->
  join delim (k :: p) = String.append k (String.append delim (join delim p)).
Proof. destruct p; [contradiction | reflexivity]. Qed.

Lemma join_snoc (delim : string) (q : list string) (k : string) :
  q <> [] ->
  join delim (q ++ [k]) = String.append (join delim q) (String.append delim k).
Proof.
  induction q as [|a q IH]; intros Hne; [contradiction|].
  destruct q as [|b q].
  - reflexivity.
  - change ((a :: b :: q) ++ [k]) with (a :: ((b :: q) ++ [k])).
    rewrite join_cons by (simpl; discriminate).
    rewrite IH by discriminate.
    rewrite (join_cons delim a (b :: q)) by discriminate.
    now rewrite !append_assoc.
Qed.

(** The column names of the value stored under the path [q]. *)
Lemma flatten_value_leaves (delim : string) (v : tree_value) :
  forall q, q <> [] ->
    flatten_value delim false (join delim q) v =
    map (fun pv => (join delim (q ++ fst pv), snd pv)) (leaves_value v).
Proof.
  induction v as [s|items|fields IH] using tree_nested_ind; intros q Hq.
  - simpl. now rewrite app_nil_r.
  - simpl. now rewrite app_nil_r.
  - simpl. induction IH as [|[k v] fs Hv _ IHfs]; [reflexivity|].
    rewrite map_app, map_map. simpl. rewrite <- IHfs. f_equal.
    simpl in Hv. change (header_of false k) with k.
    rewrite <- join_snoc by exact Hq.
    rewrite (Hv (q ++ [k])) by (destruct q; discriminate).
    apply map_ext. intros [p x]. simpl. now rewrite <- app_assoc.
Qed.

Lemma flatten_leaves (delim : string) (t : ResourceTree) :
  flatten delim false t = map (fun pv => (join delim (fst pv), snd pv)) (leaves t).
Proof.
  unfold flatten. induction t as [|[k v] t IH]; [reflexivity|].
  rewrite leaves_cons, map_app, map_map. simpl flat_map. rewrite IH. f_equal.
  unfold header_of. simpl.
  change k with (join delim [k]) at 1.
  rewrite flatten_value_leaves by discriminate. reflexivity.
Qed.

Lemma splits_back_spec (delim : string) (t : ResourceTree) :
  splits_back delim t = true <->
  forall p v, In (p, v) (leaves t) -> split delim (join delim p) = p.
Proof.
  unfold splits_back. rewrite forallb_forall. split.
  - intros H p v Hin. specialize (H _ Hin). unfold paths_eqb in H. simpl in H.
    destruct (list_eq_dec string_dec (split delim (join delim p)) p); [auto | discriminate].
  - intros H [p v] Hin. unfold paths_eqb. simpl. rewrite (H p v Hin).
    destruct (list_eq_dec string_dec p p); [reflexivity | contradiction].
Qed.

Lemma lookup_first {A : Type} (d : list (string * A)) (k : string) (v : A) :
  In (k, v) d -> exists v0, lookup k d = Some v0 /\ In (k, v0) d.
Proof.
  induction d as [|[k' v'] d IH]; simpl; [tauto|].
  destruct (String.eqb_spec k' k) as [->|Hk].
  - intros _. exists v'. auto.
  - intros [[= E _]|Hin]; [contradiction|].
    destruct (IH Hin) as [v0 [H1 H2]]. exists v0. auto.
Qed.

(** The cell of a column in the row of a tree holds the leaf at the path
    of the column. *)
Lemma flatten_lookup (delim : string) (t : ResourceTree) (p : list string)
      (v : tree_value) :
  unique_keys t = true -> splits_back delim t = true ->
  In (p, v) (leaves t) ->
  lookup (join delim p) (flatten delim false t) = Some v.
Proof.
  intros Hu Hs Hin. rewrite flatten_leaves.
  destruct (lookup_first (map (fun pv => (join delim (fst pv), snd pv)) (leaves t))
                         (join delim p) v) as [v0 [Hl Hin0]].
  { apply in_map_iff. now exists (p, v). }
  rewrite Hl. f_equal.
  apply in_map_iff in Hin0 as [[p0 v0'] [[= Ej Ev] Hin0]]. subst v0'.
  assert (p0 = p).
  { rewrite <- (proj1 (splits_back_spec delim t) Hs p0 v0 Hin0).
    rewrite <- (proj1 (splits_back_spec delim t) Hs p v Hin). now rewrite Ej. }
  subst p0. exact (leaves_functional p t v0 v Hu Hin0 Hin).
Qed.

Lemma flatten_lookup_inv (delim : string) (t : ResourceTree) (c : string)
      (v : tree_value) :
  splits_back delim t = true ->
  lookup c (flatten delim false t) = Some v ->
  In (split delim c, v) (leaves t).
Proof.
  intros Hs Hl. rewrite flatten_leaves in Hl. apply lookup_In in Hl.
  apply in_map_iff in Hl as [[p v'] [[= <- <-] Hin]]. simpl.
  now rewrite (proj1 (splits_back_spec delim t) Hs p v' Hin).
Qed.

(** ** Normalization *)

Lemma normalize_value_tree (f : list (string * tree_value)) :
  normalize_value (Tree f) = Tree (normalize f).
Proof. reflexivity. Qed.

Lemma normalize_cons (k : string) (v : tree_value) (t : ResourceTree) :
  normalize ((k, v) :: t) =
  if is_null v then normalize t else (k, normalize_value v) :: normalize t.
Proof. unfold normalize. simpl. now destruct (is_null v). Qed.

Lemma normalize_keys_incl (t : ResourceTree) (k : string) :
  In k (map fst (normalize t)) -> In k (map fst t).
Proof.
  induction t as [|[k' v] t IH]; [tauto|].
  rewrite normalize_cons. destruct (is_null v); simpl; intuition.
Qed.

Lemma normalize_NoDup (t : ResourceTree) :
  NoDup (map fst t) -> NoDup (map fst (normalize t)).
Proof.
  induction t as [|[k v] t IH]; [intros; constructor|].
  intros H. inversion H as [|? ? Hni Hnd]; subst.
  rewrite normalize_cons. destruct (is_null v); [auto|].
  simpl. constructor; [|auto].
  intros Hin. apply Hni. now apply normalize_keys_incl.
Qed.

Lemma normalize_unique (v : tree_value) :
  unique_keys_value v = true -> unique_keys_value (normalize_value v) = true.
Proof.
  induction v as [s|items|fields IH] using tree_nested_ind; intros H; auto.
  rewrite normalize_value_tree. apply unique_keys_value_tree.
  apply unique_keys_value_tree in H as [Hnd Hall].
  split; [now apply normalize_NoDup|].
  clear Hnd. induction IH as [|[k v] fs Hv _ IHfs]; [constructor|].
  inversion Hall as [|? ? H1 H2]; subst.
  rewrite normalize_cons. destruct (is_null v); [auto|].
  constructor; [exact (Hv H1) | auto].
Qed.

Definition non_null (pv : list string * tree_value) : bool := negb (is_null (snd pv)).

Lemma filter_map_path (k : string) (l : list (list string * tree_value)) :
  filter non_null (map (fun pv => (k :: fst pv, snd pv)) l) =
  map (fun pv => (k :: fst pv, snd pv)) (filter non_null l).
Proof.
  induction l as [|[p x] l IH]; simpl; [reflexivity|].
  rewrite IH. unfold non_null. simpl. now destruct (is_null x).
Qed.

(** The leaves of the normalized tree are the leaves that are not null. *)
Lemma leaves_normalize_value (v : tree_value) :
  forall f, v = Tree f -> leaves (normalize f) = filter non_null (leaves f).
Proof.
  induction v as [s|items|fields IH] using tree_nested_ind; intros f [=]. subst f.
  induction IH as [|[k v] fs Hv _ IHfs]; [reflexivity|].
  rewrite normalize_cons, leaves_cons, filter_app, filter_map_path, <- IHfs.
  destruct (is_null v) eqn:En.
  - destruct v as [[| | |]| |]; try discriminate. reflexivity.
  - rewrite leaves_cons. f_equal. f_equal. simpl in Hv.
    destruct v as [s|f|items].
    + destruct s; try discriminate; reflexivity.
    + rewrite normalize_value_tree. exact (Hv f eq_refl).
    + reflexivity.
Qed.

Lemma leaves_normalize (t : ResourceTree) :
  leaves (normalize t) = filter non_null (leaves t).
Proof. exact (leaves_normalize_value (Tree t) t eq_refl). Qed.

(** ** Trees without empty nested trees *)

Fixpoint solid_value (v : tree_value) : bool :=
  match v with
  | Tree fields =>
      (fix go (fs : list (string * tree_value)) : bool :=
         match fs with
         | [] => true
         | (k, v') :: fs' =>
             match v' with
             | Tree [] => false
             | _ => solid_value v'
             end && go fs'
         end) fields
  | _ => true
  end.

Definition solid (t : ResourceTree) : bool := solid_value (Tree t).

Lemma solid_cons (k : string) (v : tree_value) (t : ResourceTree) :
  solid ((k, v) :: t) =
  match v with
  | Tree [] => false
  | _ => solid_value v
  end && solid t.
Proof. reflexivity. Qed.

Lemma solid_lookup (t : ResourceTree) (k : string) (g : list (string * tree_value)) :
  solid t = true -> lookup k t = Some (Tree g) -> g <> [] /\ solid g = true.
Proof.
  induction t as [|[k' v] t IH]; simpl lookup; [discriminate|].
  rewrite solid_cons, andb_true_iff. intros [H1 H2].
  destruct (String.eqb k' k); [|auto].
  intros [= ->]. destruct g; [discriminate|]. split; [discriminate | exact H1].
Qed.

Lemma solid_has_leaf (v : tree_value) :
  forall f, v = Tree f -> solid f = true -> f <> [] -> exists pv, In pv (leaves f).
Proof.
  induction v as [s|items|fields IH] using tree_nested_ind; intros f [=]. subst f.
  intros Hs Hne. destruct fields as [|[k v] fs]; [contradiction|].
  inversion IH as [|? ? Hv _]; subst. simpl in Hv.
  rewrite solid_cons, andb_true_iff in Hs. destruct Hs as [Hs _].
  rewrite leaves_cons.
  destruct v as [s|g|items].
  - exists ([k], Scalar s). simpl. now left.
  - destruct g as [|kv g]; [discriminate|].
    destruct (Hv (kv :: g) eq_refl Hs) as [[p x] Hin]; [discriminate|].
    exists (k :: p, x). apply in_app_iff. left.
    apply in_map_iff. exists (p, x). auto.
  - exists ([k], ArrayOf items). simpl. now left.
Qed.

Lemma no_empty_tree_cons (k : string) (v : tree_value) (t : ResourceTree) :
  no_empty_tree ((k, v) :: t) =
  match v with
  | Tree _ =>
      match normalize_value v with
      | Tree [] => false
      | _ => no_empty_tree_value v
      end
  | _ => true
  end && no_empty_tree t.
Proof. reflexivity. Qed.

Lemma normalize_solid (v : tree_value) :
  forall f, v = Tree f -> no_empty_tree f = true -> solid (normalize f) = true.
Proof.
  induction v as [s|items|fields IH] using tree_nested_ind; intros f [=]. subst f.
  induction IH as [|[k v] fs Hv _ IHfs]; [reflexivity|].
  rewrite no_empty_tree_cons, andb_true_iff. intros [H1 H2].
  rewrite normalize_cons. destruct (is_null v) eqn:En; [auto|].
  rewrite solid_cons, (IHfs H2), andb_true_r. simpl in Hv.
  destruct v as [s|f|items]; try reflexivity.
  rewrite normalize_value_tree in *.
  destruct (normalize f) eqn:Ef; [discriminate|].
  rewrite <- Ef. exact (Hv f eq_refl H1).
Qed.

(** ** Trees under construction *)

(** [sub r u]: the tree [r] is a part of the tree [u]: its keys are
    unique, its leaves are leaves of [u] and its nested trees are parts of
    the nested trees of [u] under the same keys. *)
Inductive sub : ResourceTree -> ResourceTree -> Prop :=
| sub_intro (r u : ResourceTree) :
    NoDup (map fst r) ->
    (forall k v, lookup k r = Some v -> is_tree v = false -> lookup k u = Some v) ->
    (forall k f, lookup k r = Some (Tree f) ->
                 exists g, lookup k u = Some (Tree g) /\ sub f g) ->
    sub r u.

Lemma sub_nil (u : ResourceTree) : sub [] u.
Proof. constructor; [constructor | discriminate | discriminate]. Qed.

Lemma dict_set_NoDup {A : Type} (d : list (string * A)) (k : string) (v : A) :
  NoDup (map fst d) -> NoDup (map fst (dict_set d k v)).
Proof.
  intros H. rewrite dict_set_keys. destruct (lookup k d) eqn:E; [exact H|].
  apply lookup_None in E.
  apply NoDup_app; [exact H | repeat constructor; simpl; tauto |].
  intros x Hx [<-|[]]. contradiction.
Qed.

Lemma lookup_dict_set {A : Type} (d : list (string * A)) (k k' : string) (v : A) :
  lookup k' (dict_set d k v) = if String.eqb k k' then Some v else lookup k' d.
Proof.
  destruct (String.eqb_spec k k') as [<-|Hne].
  - apply lookup_dict_set_eq.
  - now apply lookup_dict_set_neq.
Qed.

Lemma sub_dict_set (r u : ResourceTree) (k : string) (v : tree_value) :
  sub r u ->
  (is_tree v = false -> lookup k u = Some v) ->
  (forall f, v = Tree f -> exists g, lookup k u = Some (Tree g) /\ sub f g) ->
  sub (dict_set r k v) u.
Proof.
  intros Hsub Hleaf Htree. inversion Hsub as [? ? Hnd Hl Ht]; subst.
  constructor.
  - now apply dict_set_NoDup.
  - intros k0 v0. rewrite lookup_dict_set.
    destruct (String.eqb_spec k k0) as [<-|Hne]; [|apply Hl].
    intros [= <-]. exact Hleaf.
  - intros k0 f. rewrite lookup_dict_set.
    destruct (String.eqb_spec k k0) as [<-|Hne]; [|apply Ht].
    intros [= ->]. now apply Htree.
Qed.

Lemma leaves_dict_set (r : ResourceTree) (k : string) (v : tree_value) :
  NoDup (map fst r) ->
  (forall w qx, lookup k r = Some w -> In qx (leaves_value w) -> In qx (leaves_value v)) ->
  forall pv, In pv (leaves r) -> In pv (leaves (dict_set r k v)).
Proof.
  intros Hnd Hmono [[|k0 q] x] Hin; [now apply leaves_no_root in Hin|].
  apply (leaves_In r k0 q x Hnd) in Hin as [w [Hw Hin]].
  destruct (String.eqb_spec k k0) as [<-|Hne].
  - apply (leaves_In_lookup _ k q x v); [apply lookup_dict_set_eq|].
    exact (Hmono w (q, x) Hw Hin).
  - apply (leaves_In_lookup _ k0 q x w); [|exact Hin].
    now rewrite lookup_dict_set_neq.
Qed.

Lemma leaves_value_root (w x : tree_value) :
  In ([], x) (leaves_value w) -> is_tree w = false /\ x = w.
Proof.
  destruct w as [s|f|items]; simpl.
  - intros [[= <-]|[]]. auto.
  - intros H. now apply (leaves_no_root f x) in H.
  - intros [[= <-]|[]]. auto.
Qed.

Lemma leaves_value_below (w x : tree_value) (k : string) (q : list string) :
  In (k :: q, x) (leaves_value w) -> exists g, w = Tree g /\ In (k :: q, x) (leaves g).
Proof.
  destruct w as [s|f|items]; simpl.
  - intros [[=]|[]].
  - intros H. now exists f.
  - intros [[=]|[]].
Qed.

(** Storing a leaf of [u] at its path in a part of [u] succeeds and gives
    a part of [u] that has this leaf and all the leaves it had. *)
Lemma insert_sub (p : list string) :
  forall (column : list string) (v : tree_value) (r u : ResourceTree),
    unique_keys u = true -> sub r u -> In (p, v) (leaves u) ->
    exists r',
      insert column p v r = Done r' /\ sub r' u /\
      In (p, v) (leaves r') /\
      (forall pv, In pv (leaves r) -> In pv (leaves r')).
Proof.
  induction p as [|k rest IH]; intros column v r u Hu Hsub Hin.
  - now apply leaves_no_root in Hin.
  - apply (leaves_In u k rest v (unique_keys_NoDup u Hu)) in Hin as [w [Hw Hin]].
    pose proof Hsub as Hsub0. inversion Hsub as [? ? Hnd Hl Ht]; subst.
    destruct rest as [|k1 rest'].
    + apply leaves_value_root in Hin as [Hleaf ->].
      assert (Hr : forall f, lookup k r <> Some (Tree f)).
      { intros f Hf. destruct (Ht k f Hf) as [g [Hg _]].
        rewrite Hw in Hg. injection Hg as ->. discriminate. }
      exists (dict_set r k w). split; [|split; [|split]].
      * simpl. destruct (lookup k r) as [[s|f|items]|] eqn:E; try reflexivity.
        now destruct (Hr f).
      * apply sub_dict_set; [exact Hsub0 | auto |].
        intros f ->. discriminate.
      * apply (leaves_In_lookup _ k [] w w); [apply lookup_dict_set_eq|].
        rewrite leaves_value_leaf by exact Hleaf. now left.
      * apply leaves_dict_set; [exact Hnd|].
        intros w0 qx Hw0 Hqx.
        destruct (is_tree w0) eqn:E0.
        -- destruct w0; try discriminate. now destruct (Hr fields).
        -- rewrite (Hl k w0 Hw0 E0) in Hw. now injection Hw as <-.
    + apply leaves_value_below in Hin as [g [-> Hin]].
      assert (Hug : unique_keys g = true) by exact (unique_keys_lookup u k g Hu Hw).
      assert (Hstep : forall f, sub f g ->
                 (forall w0 qx, lookup k r = Some w0 -> In qx (leaves_value w0) ->
                                In qx (leaves f)) ->
                 exists r',
                   and_then (insert column (k1 :: rest') v f)
                            (fun sub0 => Done (dict_set r k (Tree sub0))) = Done r' /\
                   sub r' u /\ In (k :: k1 :: rest', v) (leaves r') /\
                   (forall pv, In pv (leaves r) -> In pv (leaves r'))).
      { intros f Hf Hold.
        destruct (IH column v f g Hug Hf Hin) as [f' [Hins [Hsub' [Hin' Hmono]]]].
        exists (dict_set r k (Tree f')). rewrite Hins. simpl.
        split; [reflexivity|]. split; [|split].
        - apply sub_dict_set; [exact Hsub0 | discriminate |].
          intros f0 [= <-]. exists g. auto.
        - apply (leaves_In_lookup _ k (k1 :: rest') v (Tree f'));
            [apply lookup_dict_set_eq | exact Hin'].
        - apply leaves_dict_set; [exact Hnd|].
          intros w0 qx Hw0 Hqx. apply Hmono. exact (Hold w0 qx Hw0 Hqx). }
      change (insert column (k :: k1 :: rest') v r)
        with (match lookup k r with
              | None =>
                  and_then (insert column (k1 :: rest') v [])
                           (fun sub0 => Done (dict_set r k (Tree sub0)))
              | Some (Tree sub0) =>
                  and_then (insert column (k1 :: rest') v sub0)
                           (fun sub1 => Done (dict_set r k (Tree sub1)))
              | Some _ => ShapeConflict column
              end).
      destruct (lookup k r) as [[s|f|items]|] eqn:E.
      * rewrite (Hl k (Scalar s) E eq_refl) in Hw. discriminate.
      * destruct (Ht k f E) as [g' [Hg' Hfg]].
        rewrite Hw in Hg'. injection Hg' as <-.
        apply Hstep; [exact Hfg|]. now intros w0 qx [= <-].
      * rewrite (Hl k (ArrayOf items) E eq_refl) in Hw. discriminate.
      * apply Hstep; [apply sub_nil | discriminate].
Qed.

Lemma equiv_leaf (v : tree_value) : is_tree v = false -> equiv v v.
Proof. destruct v; [constructor | discriminate | constructor]. Qed.

(** A part of [u] that has every leaf of [u] is [u], up to the order of
    the fields, when no nested tree of [u] is empty. *)
Lemma sub_complete (v : tree_value) :
  forall r u,
    v = Tree r -> sub r u -> unique_keys u = true -> solid u = true ->
    (forall pv, In pv (leaves u) -> In pv (leaves r)) ->
    equiv (Tree r) (Tree u).
Proof.
  induction v as [s|items|fields IH] using tree_nested_ind; intros r u [=]. subst r.
  intros Hsub Hu Hs Hall.
  inversion Hsub as [? ? Hnd Hl Ht]; subst.
  assert (Hcover : forall k w, lookup k u = Some w -> lookup k fields <> None).
  { intros k w Hw Hnone.
    assert (Hex : exists qx, In qx (leaves_value w)).
    { destruct w as [s|g|items].
      - exists ([], Scalar s). now left.
      - destruct (solid_lookup u k g Hs Hw) as [Hne Hsg].
        exact (solid_has_leaf (Tree g) g eq_refl Hsg Hne).
      - exists ([], ArrayOf items). now left. }
    destruct Hex as [[q x] Hqx].
    pose proof (Hall _ (leaves_In_lookup u k q x w Hw Hqx)) as Hin.
    apply (leaves_In fields k q x Hnd) in Hin as [w' [Hw' _]]. congruence. }
  constructor.
  - intros k. split.
    + intros Hnone. destruct (lookup k u) as [w|] eqn:E; [|reflexivity].
      now destruct (Hcover k w E).
    + intros Hnone. destruct (lookup k fields) as [w|] eqn:E; [|reflexivity].
      destruct (is_tree w) eqn:Ew.
      * destruct w; try discriminate. destruct (Ht k _ E) as [g [Hg _]]. congruence.
      * rewrite (Hl k w E Ew) in Hnone. discriminate.
  - intros k w w' Hw Hw'.
    destruct (is_tree w) eqn:Ew.
    + destruct w as [|f|]; try discriminate.
      destruct (Ht k f Hw) as [g [Hg Hfg]]. rewrite Hw' in Hg. injection Hg as ->.
      rewrite Forall_forall in IH.
      apply (IH (k, Tree f) (lookup_In _ _ _ Hw) f g eq_refl Hfg).
      * exact (unique_keys_lookup u k g Hu Hw').
      * exact (proj2 (solid_lookup u k g Hs Hw')).
      * intros [q x] Hqx.
        pose proof (Hall _ (leaves_In_lookup u k q x (Tree g) Hw' Hqx)) as Hin.
        apply (leaves_In fields k q x Hnd) in Hin as [w0 [Hw0 Hin]].
        rewrite Hw in Hw0. now injection Hw0 as <-.
    + rewrite (Hl k w Hw Ew) in Hw'. injection Hw' as <-. now apply equiv_leaf.
Qed.

(** ** Rows *)

Lemma traverse_map {A B C : Type} (f : B -> outcome C) (g : A -> B)
      (R : C -> A -> Prop) (l : list A) :
  (forall a, In a l -> exists c, f (g a) = Done c /\ R c a) ->
  exists cs, traverse f (map g l) = Done cs /\ Forall2 R cs l.
Proof.
  induction l as [|a l IH]; intros H.
  - exists []. split; [reflexivity | constructor].
  - destruct (H a (or_introl eq_refl)) as [c [Hc HR]].
    destruct IH as [cs [Hcs HF]]; [intros a' Ha'; apply H; now right|].
    exists (c :: cs). simpl. rewrite Hc. simpl. rewrite Hcs. simpl.
    split; [reflexivity | now constructor].
Qed.

Section Row.

Variables (naValues : list scalar) (delim : string) (t : ResourceTree).

Hypothesis Hunique : unique_keys t = true.
Hypothesis Hsentinel : no_sentinel naValues t = true.
Hypothesis Hsplits : splits_back delim t = true.

Let row := flatten delim false t.
Let u := normalize t.

Lemma live_leaf (p : list string) (v : tree_value) :
  In (p, v) (leaves u) <-> In (p, v) (leaves t) /\ is_na naValues v = false.
Proof.
  unfold u. rewrite leaves_normalize, filter_In. unfold non_null, is_na. simpl.
  split.
  - intros [Hin Hnull]. split; [exact Hin|].
    unfold no_sentinel in Hsentinel. rewrite forallb_forall in Hsentinel.
    specialize (Hsentinel _ Hin). simpl in Hsentinel.
    apply negb_true_iff in Hnull, Hsentinel. now rewrite Hnull, Hsentinel.
  - intros [Hin Hna]. split; [exact Hin|].
    apply orb_false_iff in Hna as [-> _]. reflexivity.
Qed.

(** The cells of the columns [cols], read from left to right into a part
    of the normalized tree. *)
Lemma read_columns (cols : list string) :
  forall r,
    sub r u ->
    exists r',
      for_each (row_step naValues delim)
               (combine cols (map (fun c => cell_of naValues (lookup c row)) cols)) r
      = Done r' /\
      sub r' u /\
      (forall pv, In pv (leaves r) -> In pv (leaves r')) /\
      (forall c v, In c cols -> lookup c row = Some v -> is_na naValues v = false ->
                   In (split delim c, v) (leaves r')).
Proof.
  assert (Hu : unique_keys u = true) by (apply (normalize_unique (Tree t)); exact Hunique).
  induction cols as [|c cols IH]; intros r Hsub.
  - exists r. split; [reflexivity|]. split; [exact Hsub|]. split; [auto|].
    intros c v [].
  - simpl combine. simpl for_each.
    assert (Hstep : exists r1,
               row_step naValues delim r (c, cell_of naValues (lookup c row)) = Done r1 /\
               sub r1 u /\
               (forall pv, In pv (leaves r) -> In pv (leaves r1)) /\
               (forall v, lookup c row = Some v -> is_na naValues v = false ->
                          In (split delim c, v) (leaves r1))).
    { unfold row_step, cell_of. simpl.
      destruct (lookup c row) as [v|] eqn:Ec.
      - destruct (is_na naValues v) eqn:Ena.
        + exists r. split; [reflexivity|]. split; [exact Hsub|]. split; [auto|].
          intros v' [= <-] Hna. congruence.
        + assert (Es : is_sentinel naValues v = false).
          { unfold is_na in Ena. now apply orb_false_iff in Ena. }
          rewrite Es.
          assert (Hin : In (split delim c, v) (leaves u)).
          { apply live_leaf. split; [|exact Ena].
            now apply flatten_lookup_inv. }
          destruct (insert_sub (split delim c) (split delim c) v r u Hu Hsub Hin)
            as [r1 [Hins [Hsub1 [Hin1 Hmono]]]].
          exists r1. split; [exact Hins|]. split; [exact Hsub1|]. split; [exact Hmono|].
          now intros v' [= <-].
      - exists r. split; [reflexivity|]. split; [exact Hsub|]. split; [auto|].
        discriminate. }
    destruct Hstep as [r1 [Hr1 [Hsub1 [Hmono1 Hc]]]].
    destruct (IH r1 Hsub1) as [r' [Hr' [Hsub' [Hmono' Hcols]]]].
    exists r'. rewrite Hr1. simpl. split; [exact Hr'|]. split; [exact Hsub'|].
    split; [auto|].
    intros c0 v [<-|Hin] Hl Hna; [apply Hmono'; now apply Hc | now apply Hcols].
Qed.

Hypothesis Hsolid : no_empty_tree t = true.

(** A row of the table of a batch is read back as the tree it was
    written from, normalized. *)
Lemma fromRow_flatten (header : list string) :
  (forall c, In c (map fst row) -> In c header) ->
  exists t',
    fromRow naValues delim header
            (map (fun c => cell_of naValues (lookup c row)) header) = Done t' /\
    tree_equiv t' (normalize t).
Proof.
  intros Hheader. unfold fromRow.
  destruct (read_columns header [] (sub_nil u)) as [r' [Hr' [Hsub [_ Hcols]]]].
  exists r'. split; [exact Hr'|].
  apply (sub_complete (Tree r') r' u eq_refl Hsub).
  - apply (normalize_unique (Tree t)). exact Hunique.
  - exact (normalize_solid (Tree t) t eq_refl Hsolid).
  - intros [p v] Hin. apply live_leaf in Hin as [Hin Hna].
    rewrite <- (proj1 (splits_back_spec delim t) Hsplits p v Hin).
    apply Hcols; [|now apply flatten_lookup | exact Hna].
    apply Hheader. unfold row. rewrite flatten_leaves, map_map. simpl.
    apply in_map_iff. now exists (p, v).
Qed.

End Row.

End TableCodecFacts.

(* ================================================================= *)
(** * The table codec: specification statements *)

(** C1 (as amended): for every batch of resource trees with unique keys
    and no value equal to a configured NA sentinel, whose column names
    split back into the paths they were built from and whose nested trees
    all keep a field once the null fields are dropped, converting the
    batch to a table and back with the same NA values and delimiter
    succeeds and returns, tree by tree, the batch with its null fields
    absent, up to the order of the fields; and for the two flat trees of
    the example, trees to table and table to trees reproduce the table
    and the trees exactly, column order included. *)
Theorem C1_table_round_trip :
  (forall (trees : list TableCodec.ResourceTree)
          (naValues : list TableCodec.scalar) (delim : string),
      forallb (TableCodec.well_formed naValues delim) trees = true ->
      exists trees',
        TableCodec.fromTable (TableCodec.toTable trees naValues delim false)
                             naValues delim
        = TableCodec.Done trees' /\
        Forall2 TableCodec.tree_equiv trees' (map TableCodec.normalize trees))
  /\
  TableCodec.toTable TableExamples.example_trees [TableCodec.SNull] "." false
  = TableExamples.example_table
  /\
  TableCodec.fromTable TableExamples.example_table [TableCodec.SNull] "."
  = TableCodec.Done TableExamples.example_trees.
Proof.
  split; [|split; reflexivity].
  intros trees naValues delim Hwf. rewrite forallb_forall in Hwf.
  unfold TableCodec.fromTable, TableCodec.toTable.
  simpl TableCodec.columns. simpl TableCodec.rows. rewrite map_map.
  set (header := dedup (flat_map (map fst)
                                 (map (TableCodec.flatten delim false) trees))).
  destruct (TableCodecFacts.traverse_map
              (TableCodec.fromRow naValues delim header)
              (fun t => map (fun c => TableCodec.cell_of naValues
                                        (lookup c (TableCodec.flatten delim false t)))
                            header)
              (fun t' t => TableCodec.tree_equiv t' (TableCodec.normalize t)) trees)
    as [trees' [Hdone Hequiv]].
  - intros t Hin. specialize (Hwf t Hin). unfold TableCodec.well_formed in Hwf.
    apply andb_true_iff in Hwf as [Hwf Hsolid].
    apply andb_true_iff in Hwf as [Hwf Hsplits].
    apply andb_true_iff in Hwf as [Hunique Hsentinel].
    apply TableCodecFacts.fromRow_flatten; auto.
    intros c Hc. unfold header. apply dedup_In, in_flat_map.
    exists (TableCodec.flatten delim false t). split; [|exact Hc].
    apply in_map_iff. now exists t.
  - exists trees'. split; [exact Hdone|].
    clear - Hequiv. induction Hequiv; simpl; constructor; auto.
Qed.

Lemma C1_table_round_trip_witness :
  exists trees',
    TableCodec.fromTable
      (TableCodec.toTable TableExamples.example_batch [TableCodec.SStr "NA"] "." false)
      [TableCodec.SStr "NA"] "."
    = TableCodec.Done trees' /\
    Forall2 TableCodec.tree_equiv trees'
            (map TableCodec.normalize TableExamples.example_batch).
Proof.
  exact (proj1 C1_table_round_trip TableExamples.example_batch
               [TableCodec.SStr "NA"] "." eq_refl).
Defined.

(** An empty nested tree has no column, and a key that contains the
    delimiter is read back as a path: in both cases the tree read back
    differs from the tree written, which has unique keys and no value
    equal to a sentinel. *)
Lemma C1_table_round_trip_counterexample :
  (TableCodec.unique_keys [("a", TableCodec.Tree [])] = true /\
   TableCodec.no_sentinel [TableCodec.SNull] [("a", TableCodec.Tree [])] = true /\
   TableCodec.fromTable
     (TableCodec.toTable [[("a", TableCodec.Tree [])]] [TableCodec.SNull] "." false)
     [TableCodec.SNull] "."
   = TableCodec.Done [[]] /\
   ~ TableCodec.tree_equiv [] (TableCodec.normalize [("a", TableCodec.Tree [])]))
  /\
  (TableCodec.unique_keys [("a.b", TableCodec.Scalar (TableCodec.SNum 1))] = true /\
   TableCodec.no_sentinel [TableCodec.SNull]
                          [("a.b", TableCodec.Scalar (TableCodec.SNum 1))] = true /\
   TableCodec.fromTable
     (TableCodec.toTable [[("a.b", TableCodec.Scalar (TableCodec.SNum 1))]]
                         [TableCodec.SNull] "." false)
     [TableCodec.SNull] "."
   = TableCodec.Done
       [[("a", TableCodec.Tree [("b", TableCodec.Scalar (TableCodec.SNum 1))])]] /\
   ~ TableCodec.tree_equiv
       [("a", TableCodec.Tree [("b", TableCodec.Scalar (TableCodec.SNum 1))])]
       (TableCodec.normalize [("a.b", TableCodec.Scalar (TableCodec.SNum 1))])).
Proof.
  split; (split; [reflexivity|]; split; [reflexivity|]; split; [reflexivity|]).
  - intros H. inversion H as [| |f g Hnone _]; subst.
    specialize (Hnone "a"). simpl in Hnone.
    destruct Hnone as [Hnone _]. discriminate (Hnone eq_refl).
  - intros H. inversion H as [| |f g Hnone _]; subst.
    specialize (Hnone "a"). simpl in Hnone.
    destruct Hnone as [_ Hnone]. discriminate (Hnone eq_refl).
Qed.

(* ================================================================= *)
(** * Further properties of the reshaper *)

(** The dot-separated segments of a path. *)
Definition segments (p : string) : list string :=
  let (h, t) := split_char "." p in h :: t.

(** No segment of a kept path is [id]. *)
Definition id_free (keep : list string) : bool :=
  forallb (fun p => negb (existsb (String.eqb "id") (segments p))) keep.

Lemma assign_keys_fresh (roots : list string) :
  forall (new : Resource) (vals : list value),
    NoDup roots -> length vals = length roots ->
    (forall r, In r roots -> lookup r new = None) ->
    map fst (assign new roots vals) = map fst new ++ roots.
Proof.
  unfold assign. induction roots as [|r roots IH]; intros new vals Hnd Hlen Hfresh.
  - simpl. now rewrite app_nil_r.
  - destruct vals as [|v vals]; [discriminate|]. simpl.
    inversion Hnd as [|? ? Hni Hnd']; subst.
    rewrite IH; [| exact Hnd' | simpl in Hlen; lia |].
    + unfold setattr. rewrite dict_set_keys, (Hfresh r (or_introl eq_refl)).
      now rewrite <- app_assoc.
    + intros r' Hr'. unfold setattr. rewrite lookup_dict_set_neq.
      * apply Hfresh. now right.
      * intros ->. contradiction.
Qed.

Lemma split1_dot (root leaf : string) :
  contains_char "." root = false ->
  split1 (String.append root (String "." leaf)) = (root, Some leaf).
Proof.
  unfold contains_char. induction root as [|c root IH]; simpl; [reflexivity|].
  destruct (Ascii.eqb c "."); simpl; intros H.
  - discriminate H.
  - now rewrite (IH H).
Qed.

Lemma split1_no_dot (root : string) :
  contains_char "." root = false -> split1 root = (root, None).
Proof.
  unfold contains_char. induction root as [|c root IH]; simpl; [reflexivity|].
  destruct (Ascii.eqb c "."); simpl; intros H.
  - discriminate H.
  - now rewrite (IH H).
Qed.

Lemma segments_split1 (p : string) :
  segments p =
  match split1 p with
  | (root, None) => [root]
  | (root, Some leaf) => root :: segments leaf
  end.
Proof.
  unfold segments. induction p as [|c p IH]; simpl; [reflexivity|].
  destruct (Ascii.eqb c ".").
  - now destruct (split_char "." p).
  - destruct (split_char "." p) as [h t], (split1 p) as [h' [leaf|]].
    + destruct (split_char "." leaf) as [h2 t2]. now injection IH as -> ->.
    + now injection IH as -> ->.
Qed.

Lemma id_free_root (keep : list string) (root : string) :
  id_free keep = true -> In root (map fst (map split1 keep)) ->
  String.eqb root "id" = false.
Proof.
  unfold id_free. rewrite forallb_forall. intros H Hin.
  rewrite map_map in Hin. apply in_map_iff in Hin as [p [Hp Hin]].
  specialize (H p Hin). rewrite segments_split1 in H.
  assert (E : forall l, existsb (String.eqb "id") (root :: l)
                        = String.eqb root "id" || existsb (String.eqb "id") l).
  { intros l. cbn [existsb]. now rewrite (String.eqb_sym "id" root). }
  destruct (split1 p) as [r [leaf|]]; cbn [fst] in Hp; subst r;
    rewrite E in H; destruct (String.eqb root "id");
    [discriminate | reflexivity | discriminate | reflexivity].
Qed.

Lemma id_free_leafs (keep : list string) (root : string) :
  id_free keep = true -> id_free (leafs_of (map split1 keep) root) = true.
Proof.
  unfold id_free. rewrite !forallb_forall. intros H leaf Hleaf.
  apply leafs_of_In in Hleaf as [p [Hp Hsplit]].
  specialize (H p Hp). rewrite segments_split1, Hsplit in H.
  cbn [existsb] in H. apply negb_true_iff, orb_false_iff in H as [_ H].
  now rewrite H.
Qed.

Section MoreReshapeFacts.

Variable ord : set_iteration.

Lemma _reshape_length (self : Reshaper) (resource : value) (keep : list string)
      (versioned : bool) (new : Resource) :
  _reshape ord self resource keep versioned = Ok new ->
  exists vals, length vals = length (roots_of ord keep) /\
               new = assign (Resource_new []) (roots_of ord keep) vals.
Proof.
  intros H. apply _reshape_Ok in H as [vals [HF ->]].
  exists vals. split; [symmetry; exact (Forall2_length HF) | reflexivity].
Qed.

(** The flag [versioned] only matters where an [id] is kept. *)
Lemma _reshape_versioned_irrelevant (self : Reshaper) (keep : list string) :
  forall resource,
    id_free keep = true ->
    _reshape ord self resource keep true = _reshape ord self resource keep false.
Proof.
  induction keep as [keep IH] using keep_ind. intros resource Hfree.
  rewrite !_reshape_mapM.
  rewrite (mapM_ext_in
             (root_value (_reshape ord self) self resource (map split1 keep) true)
             (root_value (_reshape ord self) self resource (map split1 keep) false));
    [reflexivity|].
  intros root Hroot. unfold roots_of in Hroot. apply iter_In in Hroot.
  unfold root_value. destruct (getattr resource root) as [val|e]; [|reflexivity].
  simpl.
  pose proof (id_free_root keep root Hfree Hroot) as Hid.
  pose proof (id_free_leafs keep root Hfree) as Hleafs.
  destruct val; simpl; try (rewrite Hid; reflexivity).
  - unfold _reshape_many_with.
    rewrite (mapM_ext_in
               (fun x => _reshape ord self x (leafs_of (map split1 keep) root) true)
               (fun x => _reshape ord self x (leafs_of (map split1 keep) root) false));
      [reflexivity|].
    intros x _. now apply IH.
  - pose proof (IH root Hroot (VRes attrs) Hleafs) as IHr.
    destruct (leafs_of (map split1 keep) root); [reflexivity|].
    unfold _reshape_one_with. now rewrite IHr.
Qed.

End MoreReshapeFacts.

(** X1: the attributes of a reshaped resource.  When [_reshape] returns,
    an attribute that is neither reserved nor a root of keep is absent
    from the result, every root of keep is present, and, when no root is
    a reserved name, the attributes of the result are exactly the four
    metadata attributes followed by the roots of keep in the iteration
    order of the set of roots, whatever the order of the attributes of
    the source. *)
Theorem X1_reshaped_attributes
        (ord : set_iteration) (self : Reshaper) (resource : value)
        (keep : list string) (versioned : bool) (new : Resource) :
  _reshape ord self resource keep versioned = Ok new ->
  (forall k, reserved k = false -> ~ In k (map fst (map split1 keep)) ->
             lookup k new = None) /\
  (forall root, In root (map fst (map split1 keep)) -> lookup root new <> None) /\
  ((forall root, In root (map fst (map split1 keep)) -> reserved root = false) ->
   map fst new = _RESERVED ++ roots_of ord keep).
Proof.
  intros H. split; [|split].
  - intros k Hk Hni.
    rewrite (_reshape_Ok_other ord self resource keep versioned new k H).
    + rewrite Resource_new_lookup by exact Hk. reflexivity.
    + unfold roots_of. now rewrite iter_In.
  - intros root Hroot.
    assert (Hin : In root (roots_of ord keep)) by (apply iter_In; exact Hroot).
    destruct (_reshape_Ok_root ord self resource keep versioned new root H Hin)
      as [nv [_ Hnv]].
    congruence.
  - intros Hres. destruct (_reshape_length ord self resource keep versioned new H)
      as [vals [Hlen ->]].
    rewrite assign_keys_fresh; [reflexivity | apply iter_NoDup | exact Hlen |].
    intros r Hr. unfold roots_of in Hr. apply iter_In in Hr.
    rewrite Resource_new_lookup by (apply Hres; exact Hr). reflexivity.
Qed.

Lemma X1_reshaped_attributes_witness :
  (forall k, reserved k = false ->
             ~ In k (map fst (map split1 ["id"; "p.name"; "items.q"])) ->
             lookup k match example_reshaped with VRes d => d | _ => [] end = None) /\
  (forall root, In root (map fst (map split1 ["id"; "p.name"; "items.q"])) ->
                lookup root match example_reshaped with VRes d => d | _ => [] end
                <> None) /\
  ((forall root, In root (map fst (map split1 ["id"; "p.name"; "items.q"])) ->
                 reserved root = false) ->
   map fst match example_reshaped with VRes d => d | _ => [] end
   = _RESERVED ++ roots_of first_seen ["id"; "p.name"; "items.q"]).
Proof.
  exact (X1_reshaped_attributes first_seen example_reshaper example_resource
           ["id"; "p.name"; "items.q"] false _ eq_refl).
Defined.

(** X2: a kept root that holds a nested resource and has leaf paths.  When
    [_reshape] returns, the value stored under the root is the nested
    resource reshaped with those leaf paths, so below the root only the
    attributes named by the leaf paths remain. *)
Theorem X2_nested_resource_pruned
        (ord : set_iteration) (self : Reshaper) (resource : value)
        (keep : list string) (versioned : bool) (new : Resource)
        (root : string) (attributes : list (string * value)) :
  _reshape ord self resource keep versioned = Ok new ->
  In root (map fst (map split1 keep)) ->
  getattr resource root = Ok (VRes attributes) ->
  leafs_of (map split1 keep) root <> [] ->
  exists sub,
    _reshape ord self (VRes attributes) (leafs_of (map split1 keep) root) versioned
    = Ok sub /\
    lookup root new = Some (VRes sub) /\
    (forall k, reserved k = false ->
               ~ In k (map fst (map split1 (leafs_of (map split1 keep) root))) ->
               lookup k sub = None).
Proof.
  intros H Hroot Hval Hleafs.
  assert (Hin : In root (roots_of ord keep)) by (apply iter_In; exact Hroot).
  destruct (_reshape_Ok_root ord self resource keep versioned new root H Hin)
    as [nv [Hnv Hlook]].
  unfold root_value in Hnv. rewrite Hval in Hnv. simpl in Hnv.
  destruct (leafs_of (map split1 keep) root) as [|l ls] eqn:E; [contradiction|].
  apply bind_Ok in Hnv as [sub [Hsub [= <-]]]. unfold _reshape_one_with in Hsub.
  exists sub. split; [exact Hsub|]. split; [exact Hlook|].
  intros k Hk Hni.
  rewrite (_reshape_Ok_other ord self (VRes attributes) (l :: ls) versioned sub k Hsub).
  - rewrite Resource_new_lookup by exact Hk. reflexivity.
  - unfold roots_of. now rewrite iter_In.
Qed.

Lemma X2_nested_resource_pruned_witness :
  exists sub,
    _reshape first_seen example_reshaper example_nested
             (leafs_of (map split1 ["p.name"]) "p") false = Ok sub /\
    lookup "p" [("_last_action", VNone); ("_validated", VBool false);
                ("_synchronized", VBool false); ("_store_metadata", VNone);
                ("p", VRes [("_last_action", VNone); ("_validated", VBool false);
                            ("_synchronized", VBool false); ("_store_metadata", VNone);
                            ("name", VStr "n")])]
    = Some (VRes sub) /\
    (forall k, reserved k = false ->
               ~ In k (map fst (map split1 (leafs_of (map split1 ["p.name"]) "p"))) ->
               lookup k sub = None).
Proof.
  refine (X2_nested_resource_pruned first_seen example_reshaper example_resource
            ["p.name"] false _ "p" _ eq_refl (or_introl eq_refl) eq_refl _).
  discriminate.
Defined.

(** X3: leaf paths below a scalar are ignored.  When the root of a path
    holds a scalar, whatever follows the root in the path is never looked
    up: the path reshapes like the root alone, with no exception for the
    leaf that does not exist. *)
Theorem X3_leaf_below_scalar_ignored
        (ord : set_iteration) (self : Reshaper) (x : value) (versioned : bool)
        (root leaf : string) (val : value) :
  contains_char "." root = false ->
  getattr x root = Ok val -> is_scalar val = true ->
  _reshape ord self x [String.append root (String "." leaf)] versioned
  = _reshape ord self x [root] versioned.
Proof.
  intros Hdot Hval Hsc.
  rewrite !_reshape_mapM.
  rewrite (roots_of_singleton ord [String.append root (String "." leaf)] root);
    [|discriminate | intros p [<-|[]]; now rewrite split1_dot].
  rewrite (roots_of_singleton ord [root] root);
    [|discriminate | intros p [<-|[]]; now rewrite split1_no_dot].
  cbn [mapM]. unfold root_value. rewrite Hval. cbn [bind].
  destruct val; try discriminate; reflexivity.
Qed.

Lemma X3_leaf_below_scalar_ignored_witness :
  _reshape first_seen example_reshaper example_resource ["id.no.such.leaf"] true
  = _reshape first_seen example_reshaper example_resource ["id"] true.
Proof.
  exact (X3_leaf_below_scalar_ignored first_seen example_reshaper example_resource
           true "id" "no.such.leaf" (VStr "123") eq_refl eq_refl eq_refl).
Defined.

(** X4: versioning only touches ids.  When no segment of any kept path is
    [id], [_reshape] and [reshape] return the same result, or raise the
    same exception, with and without [versioned]; the template is not
    even formatted. *)
Theorem X4_versioned_only_matters_for_id
        (ord : set_iteration) (self : Reshaper) (data : value) (keep : list string) :
  id_free keep = true ->
  (_reshape ord self data keep true = _reshape ord self data keep false) /\
  (reshape ord self data keep true = reshape ord self data keep false).
Proof.
  intros Hfree. split; [now apply _reshape_versioned_irrelevant|].
  unfold reshape, dispatch, _reshape_many, _reshape_one,
    _reshape_many_with, _reshape_one_with.
  destruct data; try reflexivity.
  - rewrite (mapM_ext_in (fun x => _reshape ord self x keep true)
                         (fun x => _reshape ord self x keep false));
      [reflexivity|].
    intros x _. now apply _reshape_versioned_irrelevant.
  - now rewrite _reshape_versioned_irrelevant.
Qed.

Lemma X4_versioned_only_matters_for_id_witness :
  (_reshape first_seen {| versioned_id_template := "{not a template" |}
            example_resource ["type"; "p.name"; "items.q"] true
   = _reshape first_seen {| versioned_id_template := "{not a template" |}
              example_resource ["type"; "p.name"; "items.q"] false) /\
  (reshape first_seen {| versioned_id_template := "{not a template" |}
           example_resource ["type"; "p.name"; "items.q"] true
   = reshape first_seen {| versioned_id_template := "{not a template" |}
             example_resource ["type"; "p.name"; "items.q"] false).
Proof.
  exact (X4_versioned_only_matters_for_id first_seen
           {| versioned_id_template := "{not a template" |}
           example_resource ["type"; "p.name"; "items.q"] eq_refl).
Defined.

(** X5: a versioned id is the formatted template or the exception of the
    formatting.  With keep ["id"], [versioned] set and a scalar id,
    [_reshape] returns the empty resource with its id set to the
    formatted template when the template formats, and otherwise raises
    the exception of [str.format] as it is: nothing is caught on the
    way. *)
Theorem X5_versioned_id_or_format_error
        (ord : set_iteration) (self : Reshaper) (x : value) (val : value) :
  getattr x "id" = Ok val -> is_scalar val = true ->
  _reshape ord self x ["id"] true =
  match format (versioned_id_template self) x with
  | Ok s => Ok (setattr (Resource_new []) "id" (VStr s))
  | Err e => Err e
  end.
Proof.
  intros Hval Hsc.
  rewrite _reshape_mapM, (roots_of_singleton ord ["id"] "id");
    [|discriminate | intros p [<-|[]]; reflexivity].
  cbn [mapM]. unfold root_value. rewrite Hval. cbn [bind].
  assert (E : new_value_for (_reshape ord self) self x
                            (leafs_of (map split1 ["id"]) "id") true "id" val
              = (s <- format (versioned_id_template self) x ;; Ok (VStr s))).
  { destruct val; try discriminate; reflexivity. }
  rewrite E. destruct (format (versioned_id_template self) x); reflexivity.
Qed.

Lemma X5_versioned_id_or_format_error_witness :
  _reshape first_seen {| versioned_id_template := "{x.id}?rev={x.rev}" |}
           example_resource ["id"] true
  = Err (AttributeError "rev") /\
  _reshape first_seen {| versioned_id_template := "{0.id}" |}
           example_resource ["id"] true
  = Err IndexError /\
  _reshape first_seen {| versioned_id_template := "{x.id}/{x.type}" |}
           example_resource ["id"] true
  = Ok (setattr (Resource_new []) "id" (VStr "123/Type")).
Proof.
  split; [|split].
  - exact (X5_versioned_id_or_format_error first_seen
             {| versioned_id_template := "{x.id}?rev={x.rev}" |}
             example_resource (VStr "123") eq_refl eq_refl).
  - exact (X5_versioned_id_or_format_error first_seen
             {| versioned_id_template := "{0.id}" |}
             example_resource (VStr "123") eq_refl eq_refl).
  - exact (X5_versioned_id_or_format_error first_seen
             {| versioned_id_template := "{x.id}/{x.type}" |}
             example_resource (VStr "123") eq_refl eq_refl).
Defined.

(* ================================================================= *)
(** * Further properties of [collect_values] *)

(** [subseq l l']: [l] is [l'] with some elements left out, the others in
    the same order. *)
Inductive subseq {A : Type} : list A -> list A -> Prop :=
| subseq_nil : subseq [] []
| subseq_skip (a : A) (l l' : list A) : subseq l l' -> subseq l (a :: l')
| subseq_take (a : A) (l l' : list A) : subseq l l' -> subseq (a :: l) (a :: l').

Lemma subseq_refl {A : Type} (l : list A) : subseq l l.
Proof. induction l; [apply subseq_nil | now apply subseq_take]. Qed.

Lemma subseq_empty {A : Type} (l : list A) : subseq [] l.
Proof. induction l; [apply subseq_nil | now apply subseq_skip]. Qed.

Lemma subseq_app {A : Type} (l1 l1' l2 l2' : list A) :
  subseq l1 l1' -> subseq l2 l2' -> subseq (l1 ++ l2) (l1' ++ l2').
Proof.
  intros H1 H2. induction H1; simpl;
    [exact H2 | now apply subseq_skip | now apply subseq_take].
Qed.

Definition is_list (x : json) : bool :=
  match x with
  | JList _ => true
  | _ => false
  end.

Lemma _collect_one_scalars (x : json) :
  (forall v, In v (_collect_one x) -> is_dict v = false /\ is_list v = false) /\
  (forall l, x = JList l ->
             forall v, In v (flat_map _collect_one l) ->
                       is_dict v = false /\ is_list v = false).
Proof.
  induction x as [| | | |l IH|d IH] using json_nested_ind;
    try (split; [intros v [] | discriminate]).
  - split; [intros v []|]. intros l' [= <-] v Hin.
    apply in_flat_map in Hin as [y [Hy Hin]].
    rewrite Forall_forall in IH. exact (proj1 (IH y Hy) v Hin).
  - split; [|discriminate].
    induction IH as [|[k v0] d Hv _ IHd]; [intros v []|].
    intros v. rewrite _collect_one_dict_cons, in_app_iff.
    intros [Hin|Hin]; [|exact (IHd v Hin)].
    simpl in Hv. destruct v0.
    + destruct Hin as [<-|[]]. auto.
    + destruct Hin as [<-|[]]. auto.
    + destruct Hin as [<-|[]]. auto.
    + destruct Hin as [<-|[]]. auto.
    + exact (proj2 Hv items eq_refl v Hin).
    + exact (proj1 Hv v Hin).
Qed.

Lemma _collect_one_subseq (x : json) :
  subseq (_collect_one x) (all_leaves x) /\
  (forall l, x = JList l -> subseq (flat_map _collect_one l) (all_leaves x)).
Proof.
  induction x as [| | | |l IH|d IH] using json_nested_ind;
    try (split; [apply subseq_empty | discriminate]).
  - split; [apply subseq_empty|]. intros l' [= <-].
    rewrite all_leaves_list.
    induction IH as [|y l Hy _ IHl]; simpl; [constructor|].
    apply subseq_app; [exact (proj1 Hy) | exact IHl].
  - split; [|discriminate].
    induction IH as [|[k v0] d Hv _ IHd]; [constructor|].
    rewrite _collect_one_dict_cons, all_leaves_dict_cons.
    apply subseq_app; [|exact IHd].
    simpl in Hv. destruct v0; try apply subseq_refl.
    + exact (proj2 Hv items eq_refl).
    + exact (proj1 Hv).
Qed.

(** X6: [_collect] yields leaf values only: whatever the nested data,
    no yielded value is a dict or a list. *)
Theorem X6_collect_yields_scalars (things : list json) (v : json) :
  In v (_collect things) -> is_dict v = false /\ is_list v = false.
Proof.
  unfold _collect. intros Hin. apply in_flat_map in Hin as [x [_ Hin]].
  exact (proj1 (_collect_one_scalars x) v Hin).
Qed.

Lemma X6_collect_yields_scalars_witness :
  is_dict (JStr "u1") = false /\ is_list (JStr "u1") = false.
Proof.
  refine (X6_collect_yields_scalars
            [JDict [("distribution",
                     JList [JDict [("contentUrl", JStr "u1"); ("tags", JList [JStr "t"])];
                            JList [JDict [("contentUrl", JStr "u2")]]])];
             JStr "top"]
            (JStr "u1") _).
  simpl. now left.
Defined.

(** X7: [_collect] neither invents nor reorders values: for any nested
    data the values it yields are, in the same order, some of the scalars
    met by the depth-first, left-to-right walk through all dicts and
    lists. *)
Theorem X7_collect_subsequence_of_walk (things : list json) :
  subseq (_collect things) (all_leaves (JList things)).
Proof.
  exact (proj2 (_collect_one_subseq (JList things)) things eq_refl).
Qed.

(** ** Following a path to scalars *)

Lemma as_json_single (f : string) (v : value) :
  reserved f = false ->
  as_json (VRes (setattr (Resource_new []) f v)) = JDict [(f, as_json v)].
Proof.
  intros Hf. unfold setattr.
  rewrite dict_set_absent by (rewrite Resource_new_lookup by exact Hf; reflexivity).
  cbn -[reserved]. now rewrite Hf.
Qed.

Lemma _collect_one_single (f : string) (v : value) :
  is_scalar v = true -> _collect_one (JDict [(f, as_json v)]) = [as_json v].
Proof. destruct v; try discriminate; reflexivity. Qed.

Section FollowFacts.

Variable ord : set_iteration.

Lemma _reshape_single_scalar (self : Reshaper) (x : value) (f : string) (v : value) :
  contains_char "." f = false ->
  getattr x f = Ok v -> is_scalar v = true ->
  _reshape ord self x [f] false = Ok (setattr (Resource_new []) f v).
Proof.
  intros Hdot Hval Hsc.
  rewrite _reshape_mapM, (roots_of_singleton ord [f] f);
    [|discriminate | intros p [<-|[]]; now rewrite split1_no_dot].
  cbn [mapM]. unfold root_value. rewrite Hval. cbn [bind].
  assert (E : new_value_for (_reshape ord self) self x
                            (leafs_of (map split1 [f]) f) false f v = Ok v).
  { destruct v; try discriminate; simpl; now rewrite andb_false_r. }
  rewrite E. reflexivity.
Qed.

Lemma _reshape_many_scalars (self : Reshaper) (f : string)
      (xs : list value) (vs : list value) :
  contains_char "." f = false ->
  Forall2 (fun x v => getattr x f = Ok v /\ is_scalar v = true) xs vs ->
  mapM (fun x => _reshape ord self x [f] false) xs
  = Ok (map (fun v => setattr (Resource_new []) f v) vs).
Proof.
  intros Hdot HF. induction HF as [|x v xs vs [Hv Hsc] _ IH]; [reflexivity|].
  simpl. rewrite (_reshape_single_scalar self x f v Hdot Hv Hsc). simpl.
  rewrite IH. reflexivity.
Qed.

Lemma _collect_singles (f : string) (vs : list value) :
  reserved f = false -> Forall (fun v => is_scalar v = true) vs ->
  flat_map _collect_one
           (map as_json (map VRes (map (fun v => setattr (Resource_new []) f v) vs)))
  = map as_json vs.
Proof.
  intros Hf HF. induction HF as [|v vs Hsc _ IH]; [reflexivity|].
  cbn [map flat_map]. rewrite IH, (as_json_single f v Hf).
  now rewrite (_collect_one_single f v Hsc).
Qed.

End FollowFacts.

Lemma Forall2_scalars (f : string) (xs vs : list value) :
  Forall2 (fun x v => getattr x f = Ok v /\ is_scalar v = true) xs vs ->
  Forall (fun v => is_scalar v = true) vs.
Proof. induction 1 as [|x v xs vs [_ H] _ IH]; constructor; auto. Qed.

(** X8: following an attribute over a batch.  For a list of resources that
    all hold a scalar under an attribute (not reserved, without dot),
    [collect_values] returns these scalars, one per resource, in the
    order of the list; for the empty list it returns the empty list
    whatever the path, so a wrong path goes unnoticed there. *)
Theorem X8_collect_over_batch :
  (forall (ord : set_iteration) (xs vs : list value) (f : string)
          (exception : string -> exn),
      contains_char "." f = false -> reserved f = false ->
      Forall2 (fun x v => getattr x f = Ok v /\ is_scalar v = true) xs vs ->
      collect_values ord (VList xs) f exception = Ok (map as_json vs))
  /\
  (forall (ord : set_iteration) (follow : string) (exception : string -> exn),
      collect_values ord (VList []) follow exception = Ok []).
Proof.
  split; [|reflexivity].
  intros ord xs vs f exception Hdot Hf HF.
  unfold collect_values, dispatch, _reshape_many, _reshape_many_with.
  rewrite (_reshape_many_scalars ord _ f xs vs Hdot HF).
  cbn [bind except_AttributeError]. f_equal.
  rewrite <- (_collect_singles f vs Hf (Forall2_scalars f xs vs HF)).
  reflexivity.
Qed.

Lemma X8_collect_over_batch_witness :
  collect_values first_seen
                 (VList [VRes (Resource_new [("q", VInt 1)]);
                         VRes (Resource_new [("q", VInt 2); ("r", VNone)])])
                 "q" Exception
  = Ok [JInt 1; JInt 2].
Proof.
  refine (proj1 X8_collect_over_batch first_seen _ [VInt 1; VInt 2] "q" Exception
                eq_refl eq_refl _).
  repeat constructor.
Defined.

(** X9: following a path through a list of nested resources.  When the
    root of the path holds a list of resources that all hold a scalar
    under the leaf, [collect_values] returns these scalars in the order
    of the list (the case of a resource with several distributions, each
    with its URL). *)
Theorem X9_collect_through_list
        (ord : set_iteration) (x : value) (xs vs : list value)
        (root leaf : string) (exception : string -> exn) :
  match x with VRes _ => True | _ => False end ->
  contains_char "." root = false -> reserved root = false ->
  contains_char "." leaf = false -> reserved leaf = false ->
  getattr x root = Ok (VList xs) ->
  Forall2 (fun e v => getattr e leaf = Ok v /\ is_scalar v = true) xs vs ->
  collect_values ord x (String.append root (String "." leaf)) exception
  = Ok (map as_json vs).
Proof.
  intros Hres Hdot Hroot Hdotl Hleaf Hval HF.
  destruct x; try contradiction.
  unfold collect_values, dispatch, _reshape_one, _reshape_one_with.
  rewrite _reshape_mapM,
    (roots_of_singleton ord [String.append root (String "." leaf)] root);
    [|discriminate | intros p [<-|[]]; now rewrite split1_dot].
  cbn [mapM]. unfold root_value. rewrite Hval. cbn [bind new_value_for].
  assert (E : leafs_of (map split1 [String.append root (String "." leaf)]) root
              = [leaf]).
  { cbn [map]. rewrite split1_dot by exact Hdot.
    unfold leafs_of. simpl. now rewrite String.eqb_refl. }
  rewrite E. unfold _reshape_many_with.
  rewrite (_reshape_many_scalars ord _ leaf xs vs Hdotl HF).
  cbn [bind except_AttributeError]. f_equal.
  unfold assign. cbn [combine fold_left fst snd].
  rewrite (as_json_single root _ Hroot). cbn [as_json].
  rewrite _collect_single, _collect_one_dict_cons. cbn [_collect_one].
  rewrite app_nil_r.
  exact (_collect_singles leaf vs Hleaf (Forall2_scalars leaf xs vs HF)).
Qed.

Lemma X9_collect_through_list_witness :
  collect_values first_seen example_resource "items.q" (Raised "DownloadingError")
  = Ok [JInt 1; JInt 2].
Proof.
  refine (X9_collect_through_list first_seen example_resource _ [VInt 1; VInt 2]
            "items" "q" (Raised "DownloadingError") I eq_refl eq_refl eq_refl eq_refl
            eq_refl _).
  repeat constructor.
Defined.

(* ================================================================= *)
(** * [KnowledgeGraphForge]: configuration and resolving *)

Module Forge.

(** A Python [dict] with string keys, in insertion order. *)
Definition dict (A : Type) : Type := list (string * A).

(** [d[k]]. *)
Definition dict_get {A : Type} (d : dict A) (k : string) : result A :=
  match lookup k d with
  | Some v => Ok v
  | None => Err (KeyError k)
  end.

Fixpoint dict_remove {A : Type} (d : dict A) (k : string) : dict A :=
  match d with
  | [] => []
  | (k', v) :: d' => if String.eqb k' k then d' else (k', v) :: dict_remove d' k
  end.

(** [d.pop(k)]: the value and the dictionary without the key. *)
Definition dict_pop {A : Type} (d : dict A) (k : string) : result (A * dict A) :=
  match lookup k d with
  | Some v => Ok (v, dict_remove d k)
  | None => Err (KeyError k)
  end.

(** [d.update(other)]. *)
Definition dict_update {A : Type} (d other : dict A) : dict A :=
  fold_left (fun acc kv => dict_set acc (fst kv) (snd kv)) other d.

(** [dict(pairs)]: a later pair replaces the value of an earlier pair with
    the same key. *)
Definition dict_of {A : Type} (pairs : list (string * A)) : dict A :=
  dict_update [] pairs.

(** [l[0]]. *)
Definition first {A : Type} (l : list A) : result A :=
  match l with
  | a :: _ => Ok a
  | [] => Err IndexError
  end.

(** An instance [ResolvingError(msg)] of the exception class of
    kgforge.core.commons.exceptions. *)
Definition ResolvingError (msg : string) : exn := Raised "ResolvingError" msg.

(** [value == "store"]. *)
Definition is_store (origin : json) : bool :=
  match origin with
  | JStr s => String.eqb s "store"
  | _ => false
  end.

Section Configured.

(** The objects built from the configuration (stores, models, resolvers)
    and what a resolver returns are not part of the sources: they are
    parameters, together with [import_class], [with_defaults] and the
    [resolve] method of a resolver. *)
Variables (instance answer strategy : Type).

Record pyclass : Type := {
  __name__ : string;
  construct : dict json -> result instance
}.

Variable import_class : json -> string -> result pyclass.
Variable with_defaults : dict json -> dict json -> string -> list string -> result (dict json).
Variable Resolver_resolve :
  instance -> string -> option string -> option string -> strategy -> result answer.

(** [prepare_resolver]: the name of the class of the resolver and the
    resolver built from the configuration without its [resolver] entry. *)
Definition prepare_resolver (config store_config : dict json)
  : result (string * instance) :=
  origin <- dict_get config "origin" ;;
  config <- (if is_store origin
             then with_defaults config store_config "name" ["endpoint"; "token"]
             else Ok config) ;;
  popped <- dict_pop config "resolver" ;;
  let resolver_name := fst popped in
  let config := snd popped in
  resolver <- import_class resolver_name "resolvers" ;;
  r <- construct resolver config ;;
  Ok (__name__ resolver, r).

(** [prepare_resolvers]: for every scope, the dictionary of its resolvers
    by class name. *)
Definition prepare_resolvers (config : dict (list (dict json)))
           (store_config : dict json) : result (dict (dict instance)) :=
  items <- mapM (fun item =>
                   pairs <- mapM (fun x => prepare_resolver x store_config) (snd item) ;;
                   Ok (fst item, dict_of pairs))
                config ;;
  Ok (dict_of items).

(** The configuration as a dictionary, with its four sections. *)
Record configuration_dict : Type := {
  Store : option (dict json);
  Model : option (dict json);
  Resolvers : option (dict (list (dict json)));
  Formatters : option (dict string)
}.

Inductive configuration : Type :=
| ConfigurationPath (path : string)
| ConfigurationDict (config : configuration_dict).

(** Reading and parsing the YAML file at a path. *)
Variable yaml_safe_load : string -> result configuration_dict.

Definition pop_section {A : Type} (section : option A) (name : string) : result A :=
  match section with
  | Some v => Ok v
  | None => Err (KeyError name)
  end.

(** The truth value of an optional, possibly empty section. *)
Definition truthy {A : Type} (section : option (dict A)) : bool :=
  match section with
  | Some (_ :: _) => true
  | _ => false
  end.

Record KnowledgeGraphForge : Type := {
  _store : instance;
  _model : instance;
  _resolvers : option (dict (dict instance));
  _formatters : option (dict string)
}.

(** [KnowledgeGraphForge.__init__]. *)
Definition __init__ (configuration : configuration) (kwargs : dict json)
  : result KnowledgeGraphForge :=
  config <- match configuration with
            | ConfigurationPath path => yaml_safe_load path
            | ConfigurationDict config => Ok config
            end ;;
  store_config <- pop_section (Store config) "Store" ;;
  let store_config := dict_update store_config kwargs in
  popped <- dict_pop store_config "name" ;;
  let store_name := fst popped in
  let store_config := snd popped in
  store <- import_class store_name "stores" ;;
  the_store <- construct store store_config ;;
  model_config <- pop_section (Model config) "Model" ;;
  origin <- dict_get model_config "origin" ;;
  model_config <- (if is_store origin
                   then with_defaults model_config store_config "name"
                                      ["endpoint"; "token"]
                   else Ok model_config) ;;
  popped <- dict_pop model_config "name" ;;
  let model_name := fst popped in
  let model_config := snd popped in
  model <- import_class model_name "models" ;;
  the_model <- construct model model_config ;;
  resolvers <- (if truthy (Resolvers config)
                then match Resolvers config with
                     | Some resolvers_config =>
                         rs <- prepare_resolvers resolvers_config store_config ;;
                         Ok (Some rs)
                     | None => Ok None
                     end
                else Ok None) ;;
  Ok {| _store := the_store; _model := the_model;
        _resolvers := resolvers; _formatters := Formatters config |}.

(** The resolver that [resolve] runs: the branches of [resolve] that bind
    [rov]. *)
Definition select_resolver (self : KnowledgeGraphForge)
           (scope resolver : option string) : result instance :=
  match _resolvers self with
  | Some resolvers =>
      match scope with
      | Some scope =>
          match resolver with
          | Some resolver =>
              by_scope <- dict_get resolvers scope ;;
              dict_get by_scope resolver
          | None =>
              by_scope <- dict_get resolvers scope ;;
              let scope_resolvers := map snd by_scope in
              if Nat.eqb (length scope_resolvers) 1 then first scope_resolvers
              else Err (ResolvingError "resolver name should be specified")
          end
      | None =>
          let scopes_resolvers := map snd resolvers in
          match resolver with
          | Some resolver =>
              if Nat.eqb (length resolvers) 1 then
                by_scope <- first scopes_resolvers ;;
                dict_get by_scope resolver
              else Err (ResolvingError "resolving scope should be specified")
          | None =>
              if Nat.eqb (length resolvers) 1 then
                by_scope <- first scopes_resolvers ;;
                if Nat.eqb (length by_scope) 1 then first (map snd by_scope)
                else Err (ResolvingError
                            "resolving scope or resolver name should bespecified")
              else Err (ResolvingError
                          "resolving scope or resolver name should bespecified")
          end
      end
  | None => Err (ResolvingError "no resolvers have been configured")
  end.

(** [KnowledgeGraphForge.resolve], before the [catch] decorator reports
    the exception. *)
Definition resolve (self : KnowledgeGraphForge) (text : string)
           (scope resolver target type : option string) (strategy : strategy)
  : result answer :=
  rov <- select_resolver self scope resolver ;;
  Resolver_resolve rov text target type strategy.


(** ** Dictionaries *)

Lemma lookup_dict_update {A : Type} (other : dict A) :
  forall (d : dict A) (k : string),
    lookup k (dict_update d other) =
    match lookup k (rev other) with
    | Some v => Some v
    | None => lookup k d
    end.
Proof.
  unfold dict_update. induction other as [|[k0 v0] other IH]; intros d k; simpl.
  - reflexivity.
  - rewrite IH, lookup_app. destruct (lookup k (rev other)); [reflexivity|].
    simpl. destruct (String.eqb_spec k0 k) as [->|Hne].
    + apply lookup_dict_set_eq.
    + now apply lookup_dict_set_neq.
Qed.

Lemma lookup_rev_NoDup {A : Type} (d : dict A) (k : string) :
  NoDup (map fst d) -> lookup k (rev d) = lookup k d.
Proof.
  induction d as [|[k0 v0] d IH]; intros Hnd; [reflexivity|].
  inversion Hnd as [|? ? Hni Hnd']; subst. simpl.
  rewrite lookup_app, (IH Hnd'). simpl.
  destruct (String.eqb_spec k0 k) as [->|Hne].
  - apply lookup_None in Hni. now rewrite Hni.
  - now destruct (lookup k d).
Qed.

Lemma dict_update_NoDup {A : Type} (other d : dict A) :
  NoDup (map fst d) -> NoDup (map fst (dict_update d other)).
Proof.
  unfold dict_update. revert d.
  induction other as [|[k v] other IH]; intros d H; simpl; [exact H|].
  apply IH. now apply TableCodecFacts.dict_set_NoDup.
Qed.

Lemma dict_update_In {A : Type} (other : dict A) :
  forall (d : dict A) (kv : string * A),
    In kv (dict_update d other) -> In kv d \/ In kv other.
Proof.
  unfold dict_update. induction other as [|[k v] other IH]; intros d kv; simpl.
  - auto.
  - intros H. apply IH in H as [H|H]; [|auto].
    assert (E : In kv (dict_set d k v) -> In kv d \/ (k, v) = kv).
    { clear. induction d as [|[k' v'] d IHd]; simpl.
      - intros [H|[]]; auto.
      - destruct (String.eqb_spec k' k) as [->|Hne]; simpl.
        + intros [H|H]; auto.
        + intros [H|H]; auto. apply IHd in H as [H|H]; auto. }
    apply E in H as [H|H]; auto.
Qed.

Lemma dict_update_length {A : Type} (other d : dict A) :
  length (dict_update d other) <= length d + length other.
Proof.
  unfold dict_update. revert d.
  induction other as [|[k v] other IH]; intros d; simpl; [lia|].
  etransitivity; [apply IH|].
  assert (E : length (dict_set d k v) <= S (length d)).
  { clear. induction d as [|[k' v'] d IHd]; simpl; [lia|].
    destruct (String.eqb k' k); simpl; lia. }
  lia.
Qed.

Lemma dict_of_NoDup {A : Type} (pairs : list (string * A)) :
  NoDup (map fst pairs) -> dict_of pairs = pairs.
Proof.
  unfold dict_of, dict_update.
  assert (H : forall d, NoDup (map fst (d ++ pairs)) ->
                        fold_left (fun acc kv => dict_set acc (fst kv) (snd kv)) pairs d
                        = d ++ pairs).
  { induction pairs as [|[k v] pairs IH]; intros d Hnd; simpl.
    - now rewrite app_nil_r.
    - rewrite dict_set_absent.
      + rewrite IH; rewrite <- app_assoc; [reflexivity | exact Hnd].
      + apply lookup_None. rewrite map_app in Hnd. simpl in Hnd.
        apply NoDup_remove_2 in Hnd. rewrite in_app_iff in Hnd.
        intros Hk. apply Hnd. now left. }
  intros Hnd. exact (H [] Hnd).
Qed.

Lemma lookup_of_In {A : Type} (d : dict A) (k : string) (v : A) :
  NoDup (map fst d) -> In (k, v) d -> lookup k d = Some v.
Proof.
  induction d as [|[k' v'] d IH]; simpl; [intros _ []|].
  intros Hnd [[= -> ->]|Hin].
  - now rewrite String.eqb_refl.
  - inversion Hnd as [|? ? Hni Hnd']; subst.
    destruct (String.eqb_spec k' k) as [->|Hk]; [|auto].
    exfalso. apply Hni. now apply (in_map fst) in Hin.
Qed.

Lemma lookup_dict_remove_neq {A : Type} (d : dict A) (k k' : string) :
  k <> k' -> lookup k' (dict_remove d k) = lookup k' d.
Proof.
  intros Hne. induction d as [|[k0 v0] d IH]; simpl; [reflexivity|].
  destruct (String.eqb_spec k0 k) as [->|Hk]; simpl.
  - destruct (String.eqb_spec k k'); [contradiction | reflexivity].
  - now rewrite IH.
Qed.

Lemma lookup_dict_remove_eq {A : Type} (d : dict A) (k : string) :
  NoDup (map fst d) -> lookup k (dict_remove d k) = None.
Proof.
  induction d as [|[k0 v0] d IH]; intros Hnd; simpl; [reflexivity|].
  inversion Hnd as [|? ? Hni Hnd']; subst.
  destruct (String.eqb_spec k0 k) as [->|Hk]; simpl.
  - now apply lookup_None.
  - destruct (String.eqb_spec k0 k); [contradiction | auto].
Qed.

Lemma length_one {A : Type} (l : list A) :
  Nat.eqb (length l) 1 = true -> exists a, l = [a].
Proof. destruct l as [|a [|b l]]; try discriminate. eauto. Qed.

(** ** Selecting a resolver *)

(** X10: [resolve] never guesses.  A resolver that [resolve] runs is
    configured under some scope and class name; a scope or a resolver
    name that is given is the one it is found under; and when the scope
    is not given there is exactly one scope, when the name is not given
    the scope holds exactly one resolver. *)
Theorem X10_resolver_selection_sound
        (self : KnowledgeGraphForge) (scope resolver : option string)
        (rov : instance) :
  select_resolver self scope resolver = Ok rov ->
  exists resolvers s by_scope r,
    _resolvers self = Some resolvers /\
    In (s, by_scope) resolvers /\ In (r, rov) by_scope /\
    (forall s', scope = Some s' -> s' = s /\ lookup s resolvers = Some by_scope) /\
    (forall r', resolver = Some r' -> r' = r /\ lookup r by_scope = Some rov) /\
    (scope = None -> resolvers = [(s, by_scope)]) /\
    (resolver = None -> by_scope = [(r, rov)]).
Proof.
  unfold select_resolver. destruct (_resolvers self) as [resolvers|]; [|discriminate].
  intros H. exists resolvers.
  destruct scope as [s|], resolver as [r|].
  - apply bind_Ok in H as [d [Hd Hr]]. unfold dict_get in Hd, Hr.
    destruct (lookup s resolvers) as [d'|] eqn:Es; [|discriminate]. injection Hd as ->.
    destruct (lookup r d) as [rov'|] eqn:Er; [|discriminate]. injection Hr as ->.
    exists s, d, r. split; [reflexivity|].
    split; [now apply lookup_In|]. split; [now apply lookup_In|].
    repeat split; try discriminate; congruence.
  - apply bind_Ok in H as [d [Hd Hr]]. unfold dict_get in Hd.
    destruct (lookup s resolvers) as [d'|] eqn:Es; [|discriminate]. injection Hd as ->.
    destruct (Nat.eqb (length (map snd d)) 1) eqn:El; [|discriminate].
    rewrite length_map in El. destruct (length_one d El) as [[r rov'] ->].
    simpl in Hr. injection Hr as ->.
    exists s, [(r, rov)], r. split; [reflexivity|].
    split; [now apply lookup_In|]. split; [now left|].
    repeat split; try discriminate; congruence.
  - destruct (Nat.eqb (length resolvers) 1) eqn:El; [|discriminate].
    destruct (length_one resolvers El) as [[s d] ->]. simpl in H.
    unfold dict_get in H.
    destruct (lookup r d) as [rov'|] eqn:Er; [|discriminate]. injection H as ->.
    exists s, d, r. split; [reflexivity|].
    split; [now left|]. split; [now apply lookup_In|].
    repeat split; try discriminate; congruence.
  - destruct (Nat.eqb (length resolvers) 1) eqn:El; [|discriminate].
    destruct (length_one resolvers El) as [[s d] ->]. simpl in H.
    destruct (Nat.eqb (length d) 1) eqn:Ed; [|discriminate].
    destruct (length_one d Ed) as [[r rov'] ->]. simpl in H. injection H as ->.
    exists s, [(r, rov)], r. split; [reflexivity|].
    split; [now left|]. split; [now left|].
    repeat split; try discriminate; congruence.
Qed.

(** X11: the default resolver.  [resolve] works without scope and
    resolver name exactly when one scope with one resolver is
    configured; and then giving the scope, the name or both selects the
    same resolver. *)
Theorem X11_default_resolver
        (self : KnowledgeGraphForge) (rov : instance) :
  (select_resolver self None None = Ok rov <->
   exists s r, _resolvers self = Some [(s, [(r, rov)])]) /\
  (forall s r, _resolvers self = Some [(s, [(r, rov)])] ->
               select_resolver self (Some s) None = Ok rov /\
               select_resolver self None (Some r) = Ok rov /\
               select_resolver self (Some s) (Some r) = Ok rov).
Proof.
  split.
  - split.
    + unfold select_resolver.
      destruct (_resolvers self) as [resolvers|]; [|discriminate].
      destruct (Nat.eqb (length resolvers) 1) eqn:El; [|discriminate].
      destruct (length_one resolvers El) as [[s d] ->]. simpl.
      destruct (Nat.eqb (length d) 1) eqn:Ed; [|discriminate].
      destruct (length_one d Ed) as [[r rov'] ->]. simpl. intros [= ->].
      now exists s, r.
    + intros [s [r H]]. unfold select_resolver. rewrite H. reflexivity.
  - intros s r H. unfold select_resolver, dict_get. rewrite H. simpl.
    rewrite !String.eqb_refl. simpl. rewrite !String.eqb_refl. repeat split.
Qed.

(** X12: the exceptions of the selection.  It raises a [ResolvingError]
    with one of four messages, or the [KeyError] of a given scope or of a
    given resolver name that is not configured; the indexing of the
    lists of resolvers is always in range. *)
Theorem X12_resolver_selection_errors
        (self : KnowledgeGraphForge) (scope resolver : option string) (e : exn) :
  select_resolver self scope resolver = Err e ->
  (exists msg,
      e = ResolvingError msg /\
      In msg ["no resolvers have been configured";
              "resolver name should be specified";
              "resolving scope should be specified";
              "resolving scope or resolver name should bespecified"]) \/
  (exists s, scope = Some s /\ e = KeyError s) \/
  (exists r, resolver = Some r /\ e = KeyError r).
Proof.
  assert (Hget : forall (A : Type) (d : dict A) (k : string) (e : exn),
             dict_get d k = Err e -> e = KeyError k).
  { intros A d k e0. unfold dict_get. destruct (lookup k d); [discriminate|].
    now intros [= <-]. }
  unfold select_resolver. destruct (_resolvers self) as [resolvers|].
  2:{ intros [= <-]. left. eexists. split; [reflexivity|]. simpl. auto. }
  destruct scope as [s|], resolver as [r|]; intros H.
  - apply bind_Err in H as [H|[d [_ H]]]; apply Hget in H; subst e; eauto 6.
  - apply bind_Err in H as [H|[d [_ H]]].
    + apply Hget in H. subst e. eauto 6.
    + destruct (Nat.eqb (length (map snd d)) 1) eqn:El.
      * rewrite length_map in El. destruct (length_one d El) as [kv ->]. discriminate.
      * injection H as <-. left. eexists. split; [reflexivity|]. simpl. auto.
  - destruct (Nat.eqb (length resolvers) 1) eqn:El.
    + destruct (length_one resolvers El) as [[s d] ->]. simpl in H.
      apply Hget in H. subst e. eauto 6.
    + injection H as <-. left. eexists. split; [reflexivity|]. simpl. auto.
  - destruct (Nat.eqb (length resolvers) 1) eqn:El.
    + destruct (length_one resolvers El) as [[s d] ->]. simpl in H.
      destruct (Nat.eqb (length d) 1) eqn:Ed.
      * destruct (length_one d Ed) as [kv ->]. discriminate.
      * injection H as <-. left. eexists. split; [reflexivity|]. simpl. auto.
    + injection H as <-. left. eexists. split; [reflexivity|]. simpl. auto.
Qed.

(** ** Preparing resolvers *)

(** X13: the entries a resolver configuration must have.  Without an
    [origin] entry [prepare_resolver] raises the [KeyError] of [origin];
    with an origin other than the store and without a [resolver] entry it
    raises the [KeyError] of [resolver]; in both cases whatever class
    could be imported and whatever the store configuration is. *)
Theorem X13_prepare_resolver_required_entries
        (config store_config : dict json) :
  (lookup "origin" config = None ->
   prepare_resolver config store_config = Err (KeyError "origin")) /\
  (forall origin,
      lookup "origin" config = Some origin -> is_store origin = false ->
      lookup "resolver" config = None ->
      prepare_resolver config store_config = Err (KeyError "resolver")).
Proof.
  unfold prepare_resolver, dict_get, dict_pop. split.
  - intros ->. reflexivity.
  - intros origin -> Hstore Hres. simpl. rewrite Hstore. simpl. now rewrite Hres.
Qed.

(** X14: what the class of a resolver is called with.  For an origin
    other than the store, [prepare_resolver] does not depend on the store
    configuration, and when it returns, the resolver was built by the
    class imported under the [resolver] entry, called with every entry of
    the configuration but [resolver] (the [origin] entry included), and
    is returned with the name of that class. *)
Theorem X14_prepare_resolver_arguments
        (config store_config : dict json) (origin : json) :
  NoDup (map fst config) ->
  lookup "origin" config = Some origin -> is_store origin = false ->
  (forall other_store_config,
      prepare_resolver config other_store_config
      = prepare_resolver config store_config) /\
  (forall name r,
      prepare_resolver config store_config = Ok (name, r) ->
      exists resolver_name cls kwargs,
        lookup "resolver" config = Some resolver_name /\
        import_class resolver_name "resolvers" = Ok cls /\
        construct cls kwargs = Ok r /\ name = __name__ cls /\
        lookup "resolver" kwargs = None /\
        lookup "origin" kwargs = Some origin /\
        (forall k, k <> "resolver" -> lookup k kwargs = lookup k config)).
Proof.
  intros Hnd Horigin Hstore. unfold prepare_resolver, dict_get, dict_pop.
  rewrite Horigin. simpl. rewrite Hstore. simpl. split; [reflexivity|].
  intros name r H.
  destruct (lookup "resolver" config) as [resolver_name|] eqn:Eres; [|discriminate].
  simpl in H. apply bind_Ok in H as [cls [Hcls H]].
  apply bind_Ok in H as [r' [Hr [= <- <-]]].
  exists resolver_name, cls, (dict_remove config "resolver").
  split; [reflexivity|]. split; [exact Hcls|]. split; [exact Hr|].
  split; [reflexivity|]. split; [now apply lookup_dict_remove_eq|].
  split.
  - rewrite lookup_dict_remove_neq by discriminate. exact Horigin.
  - intros k Hk. apply lookup_dict_remove_neq. congruence.
Qed.

Lemma prepare_resolvers_items (config : dict (list (dict json)))
      (store_config : dict json) (rs : dict (dict instance)) :
  NoDup (map fst config) ->
  prepare_resolvers config store_config = Ok rs ->
  Forall2 (fun item r =>
             fst r = fst item /\
             exists pairs,
               mapM (fun x => prepare_resolver x store_config) (snd item) = Ok pairs /\
               snd r = dict_of pairs)
          config rs.
Proof.
  intros Hnd H. unfold prepare_resolvers in H.
  apply bind_Ok in H as [items [Hitems [= <-]]].
  apply mapM_Ok in Hitems.
  assert (HF : Forall2 (fun item r =>
                          fst r = fst item /\
                          exists pairs,
                            mapM (fun x => prepare_resolver x store_config) (snd item)
                            = Ok pairs /\
                            snd r = dict_of pairs)
                       config items).
  { clear Hnd. induction Hitems as [|item r config items Hr _ IH]; constructor; auto.
    apply bind_Ok in Hr as [pairs [Hpairs [= <-]]]. simpl. eauto. }
  assert (Hkeys : map fst items = map fst config).
  { clear - HF. induction HF as [|item r config items [Hr _] _ IH]; simpl;
      [reflexivity | now rewrite Hr, IH]. }
  rewrite dict_of_NoDup by (rewrite Hkeys; exact Hnd). exact HF.
Qed.

Lemma Forall2_lookup {A B : Type} (R : string * A -> string * B -> Prop)
      (d : dict A) (d' : dict B) :
  Forall2 (fun a b => fst b = fst a /\ R a b) d d' ->
  forall k,
    match lookup k d, lookup k d' with
    | Some a, Some b => R (k, a) (k, b)
    | None, None => True
    | _, _ => False
    end.
Proof.
  induction 1 as [|[k0 a] [k1 b] d d' [Hk HR] _ IH]; intros k; simpl; [exact I|].
  simpl in Hk. subst k1.
  destruct (String.eqb_spec k0 k) as [->|Hne]; [exact HR | apply IH].
Qed.

(** X15: the prepared resolvers follow the configuration.  When
    [prepare_resolvers] returns, the scopes of the result are the scopes
    of the configuration in the same order; in every scope the class
    names are unique, there are at most as many resolvers as
    configurations, and every resolver was prepared from one of the
    configurations of that scope. *)
Theorem X15_prepared_resolvers_follow_configuration
        (config : dict (list (dict json))) (store_config : dict json)
        (rs : dict (dict instance)) :
  NoDup (map fst config) ->
  prepare_resolvers config store_config = Ok rs ->
  map fst rs = map fst config /\
  (forall scope by_scope,
      lookup scope rs = Some by_scope ->
      exists configs,
        lookup scope config = Some configs /\
        NoDup (map fst by_scope) /\
        length by_scope <= length configs /\
        (forall name r,
            In (name, r) by_scope ->
            exists x, In x configs /\ prepare_resolver x store_config = Ok (name, r))).
Proof.
  intros Hnd H. pose proof (prepare_resolvers_items config store_config rs Hnd H) as HF.
  split.
  - clear - HF. induction HF as [|item r config rs [Hr _] _ IH]; simpl;
      [reflexivity | now rewrite Hr, IH].
  - intros scope by_scope Hscope.
    pose proof (Forall2_lookup
                  (fun item r =>
                     exists pairs,
                       mapM (fun x => prepare_resolver x store_config) (snd item)
                       = Ok pairs /\ snd r = dict_of pairs)
                  config rs HF scope) as Hk.
    rewrite Hscope in Hk.
    destruct (lookup scope config) as [configs|]; [|contradiction].
    destruct Hk as [pairs [Hpairs Hd]]. simpl in Hpairs, Hd. subst by_scope.
    exists configs. split; [reflexivity|].
    apply mapM_Ok in Hpairs.
    split; [apply dict_update_NoDup; constructor|].
    split.
    + unfold dict_of. etransitivity; [apply dict_update_length|].
      simpl. rewrite (Forall2_length Hpairs). lia.
    + intros name r Hin. apply dict_update_In in Hin as [[]|Hin].
      clear - Hpairs Hin.
      induction Hpairs as [|x p configs pairs Hx _ IH]; [contradiction|].
      destruct Hin as [->|Hin].
      * exists x. split; [now left | exact Hx].
      * destruct (IH Hin) as [x' [Hx' Hp]]. exists x'. split; [now right | exact Hp].
Qed.

(** X16: two configurations of one class in a scope.  The resolvers of a
    scope are kept by class name: when several configurations of the
    scope give the same class, the resolver of the last one replaces the
    others, without any exception. *)
Theorem X16_last_resolver_of_a_class_wins
        (config : dict (list (dict json))) (store_config : dict json)
        (rs : dict (dict instance)) (scope : string) (configs : list (dict json)) :
  NoDup (map fst config) ->
  prepare_resolvers config store_config = Ok rs ->
  lookup scope config = Some configs ->
  exists pairs by_scope,
    mapM (fun x => prepare_resolver x store_config) configs = Ok pairs /\
    lookup scope rs = Some by_scope /\
    (forall name, lookup name by_scope = lookup name (rev pairs)).
Proof.
  intros Hnd H Hscope.
  pose proof (prepare_resolvers_items config store_config rs Hnd H) as HF.
  pose proof (Forall2_lookup
                (fun item r =>
                   exists pairs,
                     mapM (fun x => prepare_resolver x store_config) (snd item)
                     = Ok pairs /\ snd r = dict_of pairs)
                config rs HF scope) as Hk.
  rewrite Hscope in Hk.
  destruct (lookup scope rs) as [by_scope|]; [|contradiction].
  destruct Hk as [pairs [Hpairs Hd]]. simpl in Hpairs, Hd. subst by_scope.
  exists pairs, (dict_of pairs). split; [exact Hpairs|]. split; [reflexivity|].
  intros name. unfold dict_of. rewrite lookup_dict_update.
  now destruct (lookup name (rev pairs)).
Qed.

Lemma dict_of_same_name (name : string) (pairs : list (string * instance))
      (r : instance) :
  (forall p, In p pairs -> fst p = name) ->
  dict_of (pairs ++ [(name, r)]) = [(name, r)].
Proof.
  unfold dict_of, dict_update. intros Hall.
  assert (H : forall d,
             d = [] \/ (exists r0, d = [(name, r0)]) ->
             fold_left (fun acc kv => dict_set acc (fst kv) (snd kv))
                       (pairs ++ [(name, r)]) d = [(name, r)]).
  { induction pairs as [|[k v] pairs IH]; intros d Hd.
    - simpl. destruct Hd as [->|[r0 ->]]; simpl; [reflexivity|].
      now rewrite String.eqb_refl.
    - simpl. assert (k = name) by (apply (Hall (k, v)); now left). subst k.
      apply IH; [intros p Hp; apply Hall; now right|].
      right. destruct Hd as [->|[r0 ->]]; simpl; [eauto|].
      rewrite String.eqb_refl. eauto. }
  apply H. now left.
Qed.

(** X17: from the configuration to the default resolver.  With one scope
    configured, [resolve] without scope and resolver name runs the
    resolver of the last configuration when all the configurations of the
    scope give the same class (the earlier ones are dropped silently),
    and raises a [ResolvingError] when two of them give different
    classes. *)
Theorem X17_single_scope_default
        (self : KnowledgeGraphForge) (scope : string) (configs : list (dict json))
        (store_config : dict json) (rs : dict (dict instance))
        (pairs : list (string * instance)) :
  prepare_resolvers [(scope, configs)] store_config = Ok rs ->
  _resolvers self = Some rs ->
  mapM (fun x => prepare_resolver x store_config) configs = Ok pairs ->
  (forall name r earlier,
      pairs = earlier ++ [(name, r)] ->
      (forall p, In p earlier -> fst p = name) ->
      select_resolver self None None = Ok r) /\
  (forall p q,
      In p pairs -> In q pairs -> fst p <> fst q ->
      select_resolver self None None
      = Err (ResolvingError "resolving scope or resolver name should bespecified")).
Proof.
  intros H Hself Hpairs.
  assert (Hrs : rs = [(scope, dict_of pairs)]).
  { unfold prepare_resolvers in H. simpl in H. rewrite Hpairs in H. simpl in H.
    injection H as <-. unfold dict_of at 1. simpl.
    reflexivity. }
  subst rs. unfold select_resolver. rewrite Hself. simpl. split.
  - intros name r earlier -> Hall. rewrite (dict_of_same_name name earlier r Hall).
    reflexivity.
  - intros p q Hp Hq Hne.
    destruct (Nat.eqb (length (dict_of pairs)) 1) eqn:El; [|reflexivity].
    exfalso. destruct (length_one _ El) as [[k v] Ed].
    assert (Hkey : forall x, In x pairs -> fst x = k).
    { intros [n r] Hx. simpl.
      assert (Hl : lookup n (dict_of pairs) <> None).
      { unfold dict_of. rewrite lookup_dict_update.
        destruct (lookup n (rev pairs)) eqn:E; [discriminate|].
        apply lookup_None in E. exfalso. apply E.
        rewrite map_rev, <- in_rev. now apply (in_map fst) in Hx. }
      rewrite Ed in Hl. simpl in Hl.
      destruct (String.eqb_spec k n); [congruence | contradiction]. }
    apply Hne. now rewrite (Hkey p Hp), (Hkey q Hq).
Qed.

(** ** Construction of the forge *)

(** X18: keyword arguments override the store configuration.  When
    [__init__] returns, the store was built by the class imported under
    the [name] entry of the store configuration updated with the keyword
    arguments, called with all the other entries: an entry given as
    keyword argument has the value of the argument, a [name] argument
    included, and the other entries have the value of the
    configuration. *)
Theorem X18_keyword_arguments_override_store
        (config : configuration_dict) (kwargs : dict json)
        (forge : KnowledgeGraphForge) :
  NoDup (map fst kwargs) ->
  __init__ (ConfigurationDict config) kwargs = Ok forge ->
  exists store_config store_name cls,
    Store config = Some store_config /\
    lookup "name" (dict_update store_config kwargs) = Some store_name /\
    import_class store_name "stores" = Ok cls /\
    construct cls (dict_remove (dict_update store_config kwargs) "name")
    = Ok (_store forge) /\
    (forall k v, lookup k kwargs = Some v ->
                 lookup k (dict_update store_config kwargs) = Some v) /\
    (forall k, lookup k kwargs = None ->
               lookup k (dict_update store_config kwargs) = lookup k store_config).
Proof.
  intros Hnd H. unfold __init__ in H. cbn [bind] in H.
  apply bind_Ok in H as [store_config [Hstore H]].
  apply bind_Ok in H as [popped [Hpop H]].
  apply bind_Ok in H as [cls [Hcls H]].
  apply bind_Ok in H as [the_store [Hbuilt H]].
  apply bind_Ok in H as [model_config [_ H]].
  apply bind_Ok in H as [origin [_ H]].
  apply bind_Ok in H as [model_config' [_ H]].
  apply bind_Ok in H as [popped' [_ H]].
  apply bind_Ok in H as [model [_ H]].
  apply bind_Ok in H as [the_model [_ H]].
  apply bind_Ok in H as [resolvers [_ H]].
  injection H as <-. cbn [_store].
  unfold pop_section in Hstore.
  destruct (Store config) as [sc|]; [|discriminate]. injection Hstore as ->.
  unfold dict_pop in Hpop.
  destruct (lookup "name" (dict_update store_config kwargs)) as [store_name|] eqn:En;
    [|discriminate].
  injection Hpop as <-. cbn [fst snd] in *.
  exists store_config, store_name, cls.
  split; [reflexivity|]. split; [exact En|]. split; [exact Hcls|].
  split; [exact Hbuilt|]. split.
  - intros k v Hk. rewrite lookup_dict_update, (lookup_rev_NoDup kwargs k Hnd), Hk.
    reflexivity.
  - intros k Hk. rewrite lookup_dict_update, (lookup_rev_NoDup kwargs k Hnd), Hk.
    reflexivity.
Qed.

(** X19: a forge without resolvers.  When [__init__] returns for a
    configuration without a [Resolvers] section, or with an empty one,
    the forge has no resolvers and every call of [resolve] raises the
    [ResolvingError] "no resolvers have been configured"; with a section
    that is not empty the resolvers are the prepared ones, prepared with
    the store configuration updated with the keyword arguments and
    without its [name]. *)
Theorem X19_forge_without_resolvers
        (configuration : configuration) (kwargs : dict json)
        (forge : KnowledgeGraphForge) :
  __init__ configuration kwargs = Ok forge ->
  exists config,
    match configuration with
    | ConfigurationPath path => yaml_safe_load path = Ok config
    | ConfigurationDict c => c = config
    end /\
    (truthy (Resolvers config) = false ->
     _resolvers forge = None /\
     forall text scope resolver target type strategy,
       resolve forge text scope resolver target type strategy
       = Err (ResolvingError "no resolvers have been configured")) /\
    (forall resolvers_config,
        Resolvers config = Some resolvers_config -> resolvers_config <> [] ->
        exists store_config rs,
          Store config = Some store_config /\
          prepare_resolvers resolvers_config
                            (dict_remove (dict_update store_config kwargs) "name")
          = Ok rs /\
          _resolvers forge = Some rs).
Proof.
  intros H. unfold __init__ in H.
  apply bind_Ok in H as [config [Hconfig H]].
  apply bind_Ok in H as [store_config [Hstore H]].
  apply bind_Ok in H as [popped [Hpop H]].
  apply bind_Ok in H as [cls [_ H]].
  apply bind_Ok in H as [the_store [_ H]].
  apply bind_Ok in H as [model_config [_ H]].
  apply bind_Ok in H as [origin [_ H]].
  apply bind_Ok in H as [model_config' [_ H]].
  apply bind_Ok in H as [popped' [_ H]].
  apply bind_Ok in H as [model [_ H]].
  apply bind_Ok in H as [the_model [_ H]].
  apply bind_Ok in H as [resolvers [Hres H]].
  injection H as <-. cbn [_resolvers].
  exists config. split.
  { destruct configuration; [exact Hconfig | now injection Hconfig]. }
  split.
  - intros Hfalse. rewrite Hfalse in Hres. injection Hres as <-.
    split; [reflexivity|]. intros. reflexivity.
  - intros resolvers_config Hsome Hne. rewrite Hsome in Hres.
    destruct resolvers_config as [|item rest]; [contradiction|].
    cbn [truthy] in Hres. apply bind_Ok in Hres as [rs [Hrs [= <-]]].
    unfold pop_section in Hstore.
    destruct (Store config) as [sc|]; [|discriminate]. injection Hstore as ->.
    unfold dict_pop in Hpop.
    destruct (lookup "name" (dict_update store_config kwargs)); [|discriminate].
    injection Hpop as <-. cbn [snd] in Hrs.
    exists store_config, rs. auto.
Qed.

End Configured.

(** ** A configuration to run the definitions on *)

(** The objects of the examples: an object built from the configuration
    is the name of its class with the arguments its constructor was
    called with; every string names a class; the configurations do not
    take their origin from the store, so [with_defaults] is not called;
    a resolver answers with the name of its class and the text. *)
Definition example_instance : Type := (string * dict json)%type.

Definition example_import_class (name : json) (package : string)
  : result (pyclass example_instance) :=
  match name with
  | JStr n => Ok {| __name__ := n; construct := fun kwargs => Ok (n, kwargs) |}
  | _ => Err (TypeError "the name of a class is a string")
  end.

Definition example_with_defaults (config store_config : dict json) (name : string)
           (keys : list string) : result (dict json) :=
  Err (NotModelled "with_defaults").

Definition example_Resolver_resolve (rov : example_instance) (text : string)
           (target type : option string) (strategy : unit) : result string :=
  Ok (String.append (fst rov) (String.append ": " text)).

Definition example_yaml_safe_load (path : string) : result configuration_dict :=
  Err (Raised "FileNotFoundError" path).

Definition example_resolver_config (resolver source : string) : dict json :=
  [("resolver", JStr resolver); ("origin", JStr "directory"); ("source", JStr source)].

Definition example_terms : list (dict json) :=
  [example_resolver_config "DemoResolver" "./terms";
   example_resolver_config "DemoResolver" "./more"].

Definition example_resolvers_config : dict (list (dict json)) :=
  [("terms", example_terms);
   ("agents", [example_resolver_config "AgentResolver" "./agents"])].

Definition example_configuration : configuration_dict :=
  {| Store := Some [("name", JStr "DemoStore"); ("endpoint", JStr "http://a")];
     Model := Some [("name", JStr "DemoModel"); ("origin", JStr "directory");
                    ("source", JStr "./models")];
     Resolvers := Some [("terms", example_terms)];
     Formatters := None |}.

Definition example_bare_configuration : configuration_dict :=
  {| Store := Store example_configuration;
     Model := Model example_configuration;
     Resolvers := None;
     Formatters := None |}.

Definition example_kwargs : dict json :=
  [("endpoint", JStr "http://b"); ("token", JStr "t")].

Definition example_store_config : dict json :=
  [("endpoint", JStr "http://b"); ("token", JStr "t")].

Definition example_resolver (resolver source : string) : example_instance :=
  (resolver, [("origin", JStr "directory"); ("source", JStr source)]).

Definition example_forge : KnowledgeGraphForge example_instance :=
  {| _store := ("DemoStore", example_store_config);
     _model := ("DemoModel", [("origin", JStr "directory"); ("source", JStr "./models")]);
     _resolvers := Some [("terms", [("DemoResolver", example_resolver "DemoResolver" "./more")])];
     _formatters := None |}.

Definition example_bare_forge : KnowledgeGraphForge example_instance :=
  {| _store := _store example_instance example_forge;
     _model := _model example_instance example_forge;
     _resolvers := None;
     _formatters := None |}.

Lemma example_NoDup (keys : list string) :
  (fix distinct (l : list string) : bool :=
     match l with
     | [] => true
     | k :: l' => negb (existsb (String.eqb k) l') && distinct l'
     end) keys = true ->
  NoDup keys.
Proof.
  induction keys as [|k keys IH]; [constructor|].
  intros H. apply andb_prop in H as [Hk H]. constructor; [|exact (IH H)].
  intros Hin. apply negb_true_iff in Hk.
  assert (E : existsb (String.eqb k) keys = true).
  { apply existsb_exists. exists k. split; [exact Hin | apply String.eqb_refl]. }
  congruence.
Defined.

Lemma X10_resolver_selection_sound_witness :
  exists resolvers s by_scope r,
    _resolvers example_instance example_forge = Some resolvers /\
    In (s, by_scope) resolvers /\
    In (r, example_resolver "DemoResolver" "./more") by_scope /\
    (forall s', Some "terms" = Some s' ->
                s' = s /\ lookup s resolvers = Some by_scope) /\
    (forall r', @None string = Some r' ->
                r' = r /\
                lookup r by_scope = Some (example_resolver "DemoResolver" "./more")) /\
    (Some "terms" = None -> resolvers = [(s, by_scope)]) /\
    (@None string = None ->
     by_scope = [(r, example_resolver "DemoResolver" "./more")]).
Proof.
  exact (X10_resolver_selection_sound example_instance example_forge
           (Some "terms") None (example_resolver "DemoResolver" "./more") eq_refl).
Defined.

Lemma X11_default_resolver_witness :
  select_resolver example_instance example_forge None None
  = Ok (example_resolver "DemoResolver" "./more") /\
  select_resolver example_instance example_forge (Some "terms") (Some "DemoResolver")
  = Ok (example_resolver "DemoResolver" "./more").
Proof.
  pose proof (X11_default_resolver example_instance example_forge
                (example_resolver "DemoResolver" "./more")) as [[_ H] H'].
  split.
  - apply H. exists "terms", "DemoResolver". reflexivity.
  - exact (proj2 (proj2 (H' "terms" "DemoResolver" eq_refl))).
Defined.

Lemma X12_resolver_selection_errors_witness :
  (exists msg,
      KeyError "agents" = ResolvingError msg /\
      In msg ["no resolvers have been configured";
              "resolver name should be specified";
              "resolving scope should be specified";
              "resolving scope or resolver name should bespecified"]) \/
  (exists s, Some "agents" = Some s /\ KeyError "agents" = KeyError s) \/
  (exists r, @None string = Some r /\ KeyError "agents" = KeyError r).
Proof.
  exact (X12_resolver_selection_errors example_instance example_forge
           (Some "agents") None (KeyError "agents") eq_refl).
Defined.

Lemma X13_prepare_resolver_required_entries_witness :
  prepare_resolver example_instance example_import_class example_with_defaults
                   [("resolver", JStr "DemoResolver")] example_store_config
  = Err (KeyError "origin") /\
  prepare_resolver example_instance example_import_class example_with_defaults
                   [("origin", JStr "directory"); ("source", JStr "./terms")]
                   example_store_config
  = Err (KeyError "resolver").
Proof.
  split.
  - exact (proj1 (X13_prepare_resolver_required_entries
                    example_instance example_import_class example_with_defaults
                    [("resolver", JStr "DemoResolver")] example_store_config)
                 eq_refl).
  - exact (proj2 (X13_prepare_resolver_required_entries
                    example_instance example_import_class example_with_defaults
                    [("origin", JStr "directory"); ("source", JStr "./terms")]
                    example_store_config)
                 (JStr "directory") eq_refl eq_refl eq_refl).
Defined.

Lemma X14_prepare_resolver_arguments_witness :
  (forall other_store_config,
      prepare_resolver example_instance example_import_class example_with_defaults
                       (example_resolver_config "DemoResolver" "./terms")
                       other_store_config
      = prepare_resolver example_instance example_import_class example_with_defaults
                         (example_resolver_config "DemoResolver" "./terms")
                         example_store_config) /\
  (forall name r,
      prepare_resolver example_instance example_import_class example_with_defaults
                       (example_resolver_config "DemoResolver" "./terms")
                       example_store_config = Ok (name, r) ->
      exists resolver_name cls kwargs,
        lookup "resolver" (example_resolver_config "DemoResolver" "./terms")
        = Some resolver_name /\
        example_import_class resolver_name "resolvers" = Ok cls /\
        construct example_instance cls kwargs = Ok r /\
        name = __name__ example_instance cls /\
        lookup "resolver" kwargs = None /\
        lookup "origin" kwargs = Some (JStr "directory") /\
        (forall k, k <> "resolver" ->
                   lookup k kwargs
                   = lookup k (example_resolver_config "DemoResolver" "./terms"))).
Proof.
  exact (X14_prepare_resolver_arguments
           example_instance example_import_class example_with_defaults
           (example_resolver_config "DemoResolver" "./terms") example_store_config
           (JStr "directory")
           (example_NoDup ["resolver"; "origin"; "source"] eq_refl) eq_refl eq_refl).
Defined.

Lemma X15_prepared_resolvers_follow_configuration_witness :
  map fst [("terms", [("DemoResolver", example_resolver "DemoResolver" "./more")]);
           ("agents", [("AgentResolver", example_resolver "AgentResolver" "./agents")])]
  = map fst example_resolvers_config /\
  (forall scope by_scope,
      lookup scope
             [("terms", [("DemoResolver", example_resolver "DemoResolver" "./more")]);
              ("agents", [("AgentResolver", example_resolver "AgentResolver" "./agents")])]
      = Some by_scope ->
      exists configs,
        lookup scope example_resolvers_config = Some configs /\
        NoDup (map fst by_scope) /\
        length by_scope <= length configs /\
        (forall name r,
            In (name, r) by_scope ->
            exists x,
              In x configs /\
              prepare_resolver example_instance example_import_class
                               example_with_defaults x example_store_config
              = Ok (name, r))).
Proof.
  exact (X15_prepared_resolvers_follow_configuration
           example_instance example_import_class example_with_defaults
           example_resolvers_config example_store_config _
           (example_NoDup ["terms"; "agents"] eq_refl) eq_refl).
Defined.

Lemma X16_last_resolver_of_a_class_wins_witness :
  exists pairs by_scope,
    mapM (fun x => prepare_resolver example_instance example_import_class
                                    example_with_defaults x example_store_config)
         example_terms = Ok pairs /\
    lookup "terms"
           [("terms", [("DemoResolver", example_resolver "DemoResolver" "./more")]);
            ("agents", [("AgentResolver", example_resolver "AgentResolver" "./agents")])]
    = Some by_scope /\
    (forall name, lookup name by_scope = lookup name (rev pairs)).
Proof.
  exact (X16_last_resolver_of_a_class_wins
           example_instance example_import_class example_with_defaults
           example_resolvers_config example_store_config _ "terms" example_terms
           (example_NoDup ["terms"; "agents"] eq_refl) eq_refl eq_refl).
Defined.

Lemma X17_single_scope_default_witness :
  (forall name r earlier,
      [("DemoResolver", example_resolver "DemoResolver" "./terms");
       ("DemoResolver", example_resolver "DemoResolver" "./more")]
      = earlier ++ [(name, r)] ->
      (forall p, In p earlier -> fst p = name) ->
      select_resolver example_instance example_forge None None = Ok r) /\
  (forall p q,
      In p [("DemoResolver", example_resolver "DemoResolver" "./terms");
            ("DemoResolver", example_resolver "DemoResolver" "./more")] ->
      In q [("DemoResolver", example_resolver "DemoResolver" "./terms");
            ("DemoResolver", example_resolver "DemoResolver" "./more")] ->
      fst p <> fst q ->
      select_resolver example_instance example_forge None None
      = Err (ResolvingError "resolving scope or resolver name should bespecified")).
Proof.
  exact (X17_single_scope_default
           example_instance example_import_class example_with_defaults
           example_forge "terms" example_terms example_store_config _ _
           eq_refl eq_refl eq_refl).
Defined.

Lemma X18_keyword_arguments_override_store_witness :
  exists store_config store_name cls,
    Store example_configuration = Some store_config /\
    lookup "name" (dict_update store_config example_kwargs) = Some store_name /\
    example_import_class store_name "stores" = Ok cls /\
    construct example_instance cls
              (dict_remove (dict_update store_config example_kwargs) "name")
    = Ok (_store example_instance example_forge) /\
    (forall k v, lookup k example_kwargs = Some v ->
                 lookup k (dict_update store_config example_kwargs) = Some v) /\
    (forall k, lookup k example_kwargs = None ->
               lookup k (dict_update store_config example_kwargs)
               = lookup k store_config).
Proof.
  exact (X18_keyword_arguments_override_store
           example_instance example_import_class example_with_defaults
           example_yaml_safe_load example_configuration example_kwargs example_forge
           (example_NoDup ["endpoint"; "token"] eq_refl) eq_refl).
Defined.

Lemma X19_forge_without_resolvers_witness :
  exists config,
    example_bare_configuration = config /\
    (truthy (Resolvers config) = false ->
     _resolvers example_instance example_bare_forge = None /\
     forall text scope resolver target type strategy,
       resolve example_instance string unit example_Resolver_resolve
               example_bare_forge text scope resolver target type strategy
       = Err (ResolvingError "no resolvers have been configured")) /\
    (forall resolvers_config,
        Resolvers config = Some resolvers_config -> resolvers_config <> [] ->
        exists store_config rs,
          Store config = Some store_config /\
          prepare_resolvers example_instance example_import_class
                            example_with_defaults resolvers_config
                            (dict_remove (dict_update store_config example_kwargs) "name")
          = Ok rs /\
          _resolvers example_instance example_bare_forge = Some rs).
Proof.
  exact (X19_forge_without_resolvers
           example_instance string unit example_import_class example_with_defaults
           example_Resolver_resolve example_yaml_safe_load
           (ConfigurationDict example_bare_configuration) example_kwargs
           example_bare_forge eq_refl).
Defined.

End Forge.
